(** * minipro: joystick poller, GATT client facade and control loop

    A shallow embedding of three translation units

    - [src/util/joystick.cpp]      (module [Joystick])
    - [src/bluetooth/le_client.cpp] (modules [LEClient], [Facade], [Connect])
    - [test/minipro/t_minipro.cpp]  (module [MiniproMain])

    followed by the properties established about them.

    Machine integers are carried as [Z].  [uint8_t] indices and event
    numbers range over [0, 256); [int16_t] event values over
    [-32768, 32768).  The arithmetic of the control loop is done in
    [int]; for readings of that size it stays far inside the range of
    [int], so no wrap-around is written out. *)

From stdpp Require Import gmap list strings.
From Stdlib Require Import ZArith Lia.

Local Open Scope Z_scope.

(* ================================================================== *)
(** * Input poller: [jeronibot::util::Joystick]                        *)
(* ================================================================== *)

Module Joystick.

(** Modelled from the spec: [AxisState] is declared in util/joystick.hpp,
    which is not among the sources; the member functions use its fields
    [x] and [y], and the data model describes it as a per-axis pair
    (x, y) of signed range values. *)
Record AxisState : Type := { x : Z; y : Z }.

#[export] Instance AxisState_inhabited : Inhabited AxisState :=
  populate {| x := 0; y := 0 |}.

(** [struct js_event] and the event type tags of <linux/joystick.h>. *)
Record js_event : Type := {
  time   : Z;   (* __u32 *)
  value  : Z;   (* __s16 *)
  type   : Z;   (* __u8  *)
  number : Z    (* __u8  *)
}.

Definition JS_EVENT_BUTTON : Z := 1.
Definition JS_EVENT_AXIS   : Z := 2.
Definition JS_EVENT_INIT   : Z := 128.

(** [std::runtime_error] with its message. *)
Inductive exn : Type := runtime_error (what : string).

Section WithCallback.

(** The payload of a [std::function<void(bool)>]; the poller only tests
    it against [nullptr] and invokes it. *)
Context {callback : Type}.

(** Modelled from the spec: the class is declared in util/joystick.hpp,
    which is not among the sources.  The fields are those the member
    functions use; the data model describes the two tables as indexed by
    logical axis and by button number.  [axis_map_] and [button_map_]
    hold the entries that have been assigned so far: a key is present
    exactly when the entry has been written.  A registered callback is
    [Some cb], a [nullptr] entry is [None]. *)
Record Joystick : Type := {
  fd_          : Z;
  num_axes_    : Z;
  num_buttons_ : Z;
  axis_map_    : gmap Z AxisState;
  button_map_  : gmap Z (option callback)
}.

(** [axis_map_[i].x = v] and [axis_map_[i].y = v]: the other field keeps
    what the entry held (a value-initialised entry if it was never
    written). *)
Definition store_x (i v : Z) (m : gmap Z AxisState) : gmap Z AxisState :=
  <[ i := {| x := v; y := y (m !!! i) |} ]> m.

Definition store_y (i v : Z) (m : gmap Z AxisState) : gmap Z AxisState :=
  <[ i := {| x := x (m !!! i); y := v |} ]> m.

(** The two initialisation loops of the constructor. *)
Definition init_axes (n : Z) : gmap Z AxisState :=
  foldl (fun m i => store_y i 0 (store_x i 0 m)) ∅ (seqZ 0 n).

Definition init_buttons (n : Z) : gmap Z (option callback) :=
  foldl (fun m i => <[ i := None ]> m) ∅ (seqZ 0 n).

(** [Joystick::Joystick(device_name)].  The arguments are what the
    operating system answers: the descriptor returned by [open] and the
    counts delivered by the two [ioctl] requests ([None] when the
    request returns -1). *)
Definition new (fd : Z) (axes buttons : option Z) : exn + Joystick :=
  if fd =? -1 then
    inl (runtime_error "Joystick: Couldn't open joystick device")
  else
    match axes with
    | None => inl (runtime_error "Joystick: ioctl (JSIOCGAXES) failed")
    | Some na =>
      match buttons with
      | None => inl (runtime_error "Joystick: ioctl (JSIOCGBUTTONS) failed")
      | Some nb =>
        inr {| fd_ := fd;
               num_axes_ := na;
               num_buttons_ := nb;
               axis_map_ := init_axes na;
               button_map_ := init_buttons nb |}
      end
    end.

(** [Joystick::get_axis_state]: the object is returned alongside the
    result so that its state after a throw can be compared. *)
Definition get_axis_state (axis : Z) (j : Joystick)
  : Joystick * (exn + AxisState) :=
  if axis >=? num_axes_ j then
    (j, inl (runtime_error "Joystick: get_axis_state: axis value out of range"))
  else
    (j, inr {| x := x (axis_map_ j !!! axis); y := y (axis_map_ j !!! axis) |}).

(** [Joystick::set_button_callback]. *)
Definition set_button_callback (button : Z) (cb : option callback)
    (j : Joystick) : Joystick * (exn + unit) :=
  if button >=? num_buttons_ j then
    (j, inl (runtime_error
               "Joystick: set_button_callback: button value out of range"))
  else
    ({| fd_ := fd_ j;
        num_axes_ := num_axes_ j;
        num_buttons_ := num_buttons_ j;
        axis_map_ := axis_map_ j;
        button_map_ := <[ button := cb ]> (button_map_ j) |}, inr tt).

Definition with_axis_map (m : gmap Z AxisState) (j : Joystick) : Joystick :=
  {| fd_ := fd_ j;
     num_axes_ := num_axes_ j;
     num_buttons_ := num_buttons_ j;
     axis_map_ := m;
     button_map_ := button_map_ j |}.

(** What one pass through the body of the polling loop does with an
    event that was read.  [Stepped j invoked] carries the object after
    the pass and the callbacks run, with their argument.  [Unassigned n] is the button branch reading entry [n] of
    [button_map_] although no entry [n] was ever assigned: the loop does
    not compare [event.number] with [num_buttons_], and what the read
    then yields is fixed by the declaration of [button_map_], which is
    outside this translation unit. *)
Inductive step : Type :=
| Stepped (j : Joystick) (invoked : list (callback * bool))
| Unassigned (n : Z).

Definition on_axis (e : js_event) (j : Joystick) : Joystick :=
  match number e with
  | 0 => with_axis_map (store_x 0 (value e) (axis_map_ j)) j
  | 1 => with_axis_map (store_y 0 (value e) (axis_map_ j)) j
  | 2 => with_axis_map (store_x 2 (value e) (axis_map_ j)) j
  | 3 => with_axis_map (store_x 1 (value e) (axis_map_ j)) j
  | 4 => with_axis_map (store_y 1 (value e) (axis_map_ j)) j
  | 5 => with_axis_map (store_y 2 (value e) (axis_map_ j)) j
  | 6 => with_axis_map (store_x 3 (value e) (axis_map_ j)) j
  | 7 => with_axis_map (store_y 3 (value e) (axis_map_ j)) j
  | _ => j
  end.

Definition on_button (e : js_event) (j : Joystick) : step :=
  match button_map_ j !! number e with
  | None => Unassigned (number e)
  | Some None => Stepped j []
  | Some (Some cb) => Stepped j [(cb, negb (value e =? 0))]
  end.

(** The [switch (event.type)] of [input_thread_func]. *)
Definition on_event (e : js_event) (j : Joystick) : step :=
  if type e =? JS_EVENT_BUTTON then on_button e j
  else if type e =? JS_EVENT_AXIS then Stepped (on_axis e j) []
  else Stepped j [].

(** [input_thread_func]: one list element per iteration made before
    [should_exit_] is observed set; [None] is an iteration whose
    non-blocking [read] did not deliver a whole event. *)
Fixpoint input_thread_func (reads : list (option js_event)) (j : Joystick)
  : step :=
  match reads with
  | [] => Stepped j []
  | None :: rest => input_thread_func rest j
  | Some e :: rest =>
    match on_event e j with
    | Unassigned n => Unassigned n
    | Stepped j' inv =>
      match input_thread_func rest j' with
      | Unassigned n => Unassigned n
      | Stepped j'' inv' => Stepped j'' (inv ++ inv')
      end
    end
  end.

(** The states an open poller goes through: built by the constructor,
    then changed by [set_button_callback] (whose argument is a
    [uint8_t]) and by passes of the polling loop. *)
Inductive reachable : Joystick -> Prop :=
| reach_new fd na nb j :
    new fd (Some na) (Some nb) = inr j -> reachable j
| reach_set_button b cb j :
    reachable j -> 0 <= b < 256 ->
    reachable (fst (set_button_callback b cb j))
| reach_event e j j' inv :
    reachable j -> on_event e j = Stepped j' inv -> reachable j'.

(** The entries of [button_map_] that have been assigned are those below
    the button count. *)
Definition buttons_assigned (j : Joystick) : Prop :=
  forall n, is_Some (button_map_ j !! n) <-> 0 <= n < num_buttons_ j.

End WithCallback.

Arguments Joystick : clear implicits.
Arguments step : clear implicits.

End Joystick.

(* ================================================================== *)
(** * Control loop: [main] of t_minipro.cpp                            *)
(* ================================================================== *)

Module MiniproMain.

Import Joystick.

(** [signal_handler]: whatever the flag held, it is set afterwards. *)
Definition signal_handler (signum : Z) (should_exit : bool) : bool := true.

Definition SIGINT : Z := 2.

(** [inline int sign(int a)]. *)
Definition sign (a : Z) : Z := if a >? 0 then 1 else -1.

Definition zero_threshold_x : Z := 8000.
Definition zero_threshold_y : Z := 8000.

(** Modelled from the spec: [XBox360Controller::Axis_LeftThumbstick] is
    declared in util/xbox360_controller.hpp, which is not among the
    sources; the data model gives logical axis index 0 to the left
    stick, and joystick.cpp annotates [axis_map_[0]] with this name. *)
Definition Axis_LeftThumbstick : Z := 0.

(** The threshold test and rescaling that the loop body applies to each
    of the two readings (lines 72-77 and 79-83), with the threshold as
    an argument. *)
Definition deadzone (T v : Z) : Z :=
  if Z.abs v <? T then 0 else (Z.abs v - T) * sign v.

(** Calls made on the [MiniPro] object, in program order; [release] is
    its destructor running when the [try] block is left. *)
Inductive action : Type :=
| enable_notifications
| enter_remote_control_mode
| drive (throttle steering : Z)
| exit_remote_control_mode
| disable_notifications
| release.

Section WithCallback.

Context {callback : Type}.

(** One evaluation of the loop condition together with what the body
    then sees: the interrupts delivered to [signal_handler] since the
    previous evaluation, and the poller's state at each of the two
    [get_axis_state] calls (the poller thread runs between them). *)
Record observation : Type := {
  interrupts  : list Z;
  at_throttle : Joystick callback;
  at_steering : Joystick callback
}.

(** Lines 67-91 of the loop body: from the two negated readings to the
    [minipro.drive] call.  [steering] is an [int]; [steering /= 10.0]
    divides in [double] and converts back, which truncates toward zero:
    for an [int] numerator the quotient is that of [Z.quot]. *)
Definition command (throttle steering : Z) : action :=
  let throttle :=
    if Z.abs throttle <? zero_threshold_x then 0
    else (Z.abs throttle - zero_threshold_x) * sign throttle in
  let steering :=
    if Z.abs steering <? zero_threshold_y then 0
    else Z.quot ((Z.abs steering - zero_threshold_y) * sign steering) 10 in
  drive throttle steering.

(** The body of the [while] loop up to [minipro.drive]; either
    [get_axis_state] may throw. *)
Definition body (o : observation) : exn + action :=
  match snd (get_axis_state Axis_LeftThumbstick (at_throttle o)) with
  | inl e => inl e
  | inr st =>
    let throttle := - y st in
    match snd (get_axis_state Axis_LeftThumbstick (at_steering o)) with
    | inl e => inl e
    | inr st' =>
      let steering := - x st' in
      inr (command throttle steering)
    end
  end.

(** How the [while] loop is left. *)
Inductive loop_end : Type :=
| flag_seen                (* [should_exit] read as true *)
| threw (e : exn)          (* exception out of the body *)
| still_looping.           (* no further observation: the loop goes on *)

(** The [while (!should_exit)] loop; [should_exit] is the flag as the
    previous evaluation of the condition left it. *)
Fixpoint control_loop (should_exit : bool) (obs : list observation)
  : list action * loop_end :=
  match obs with
  | [] => ([], still_looping)
  | o :: rest =>
    let should_exit :=
      foldl (fun flag signum => signal_handler signum flag)
            should_exit (interrupts o) in
    if should_exit then ([], flag_seen)
    else match body o with
         | inl e => ([], threw e)
         | inr a =>
           let '(acts, fin) := control_loop should_exit rest in
           (a :: acts, fin)
         end
  end.

(** The [try] block of [main].  [connected] tells whether the [MiniPro]
    constructor returned rather than threw, [joystick] is what the
    [Joystick] constructor gives.  The result is the list of calls on
    the [MiniPro] object and the value returned by [main] ([None] while
    the loop is still running); the flag starts out false. *)
Definition main (connected : bool) (joystick : exn + Joystick callback)
    (obs : list observation) : list action * option Z :=
  if negb connected then ([], Some (-1))
  else
    let before := [enable_notifications; enter_remote_control_mode] in
    match joystick with
    | inl _ => (before ++ [release], Some (-1))
    | inr _ =>
      let '(acts, fin) := control_loop false obs in
      match fin with
      | flag_seen =>
        (before ++ acts ++
           [drive 0 0; exit_remote_control_mode; disable_notifications;
            release],
         Some 0)
      | threw _ => (before ++ acts ++ [release], Some (-1))
      | still_looping => (before ++ acts, None)
      end
    end.

End WithCallback.

Arguments observation : clear implicits.

(** The [drive] calls of a trace, in order. *)
Definition drives (t : list action) : list (Z * Z) :=
  omap (fun a => match a with drive th st => Some (th, st) | _ => None end) t.

End MiniproMain.

(* ================================================================== *)
(** * GATT operation facade: [bluetooth::LEClient]                     *)
(* ================================================================== *)

Module LEClient.

(** Requests handed to the BlueZ GATT client, with the arguments the
    facade passes (the [gatt_] handle, the callbacks and the destroy
    hooks are fixed per call site and left out). *)
Inductive gatt_call : Type :=
| bt_gatt_client_read_value (handle : Z)
| bt_gatt_client_read_long_value (handle offset : Z)
| bt_gatt_client_write_long_value
    (reliable_writes : bool) (handle offset : Z) (value : list Z)
| bt_gatt_client_prepare_write (id handle offset : Z) (value : list Z)
| bt_gatt_client_write_execute (id : Z)
| bt_gatt_client_cancel (id : Z).

(** Arguments of a [printf].  [to_string code] stands for the text that
    [bluetooth::utils::to_string] gives for an ATT error code; that
    helper is defined outside these sources. *)
Inductive arg : Type :=
| int_arg (n : Z)
| to_string (code : Z).

(** What a call does to the outside: requests to the collaborator and
    lines on standard output, in the order they are issued.  Format
    strings are the literals of the source, escapes unexpanded. *)
Inductive effect : Type :=
| Call (c : gatt_call)
| printf (fmt : string) (args : list arg).

(** Modelled from the spec: the class is declared in
    bluetooth/le_client.hpp, which is not among the sources.  Of its
    fields the operations below read or write one, the id of the open
    reliable-write session: an [unsigned int], 0 when none is open. *)
Record LEClient : Type := { reliable_session_id_ : Z }.

(** ** [std::promise<int>] and its future *)

Inductive promise : Type :=
| Pending
| Ready (v : Z).

(** [promise::set_value]; [None] is the [std::future_error] thrown when
    the shared state already holds a value. *)
Definition set_value (v : Z) (p : promise) : option promise :=
  match p with
  | Pending => Some (Ready v)
  | Ready _ => None
  end.

Definition fulfilled (p : promise) : bool :=
  match p with Pending => false | Ready _ => true end.

(** ** What the collaborator answers to a request

    [ret] is the value returned by the [bt_gatt_client_*] function (0 or
    [false] when the request could not be submitted); [completions] are
    the invocations of the completion callback that the event-processing
    thread makes for this request, in order. *)
Record reply (C : Type) : Type := { ret : Z; completions : list C }.
Arguments ret {C} _.
Arguments completions {C} _.

(** Arguments of [write_long_cb] and of [write_cb] / [read_cb]. *)
Record long_completion : Type := {
  success : bool; reliable_error : bool; att_ecode : Z (* uint8_t *)
}.

Record write_completion : Type := { w_success : bool; w_att_ecode : Z }.

Record read_completion : Type := {
  r_success : bool; r_att_ecode : Z; r_value : list Z (* uint8_t[length] *)
}.

(** ** Completion handlers *)

(** [LEClient::write_long_cb]; [user_data] is the promise. *)
Definition write_long_cb (c : long_completion) (p : promise)
  : list effect * option promise :=
  if success c then ([], set_value 0 p)
  else if reliable_error c then
    ([printf "Reliable write not verified\n" []], Some p)
  else ([], set_value (att_ecode c) p).

(** [LEClient::write_cb]. *)
Definition write_cb (c : write_completion) (p : promise)
  : list effect * option promise :=
  ([], set_value (if w_success c then 0 else w_att_ecode c) p).

(** [LEClient::read_cb]; [user_data] is unused. *)
Definition read_cb (c : read_completion) : list effect :=
  if negb (r_success c) then
    [printf "Read request failed: %s (0x%02x)\n"
            [to_string (r_att_ecode c); int_arg (r_att_ecode c)]]
  else
    printf "\nRead value" [] ::
    if Z.of_nat (length (r_value c)) =? 0 then [printf ": 0 bytes\n" []]
    else
      printf " (%u bytes): " [int_arg (Z.of_nat (length (r_value c)))] ::
      map (fun b => printf "%02x " [int_arg b]) (r_value c) ++
      [printf "\n" []].

(** The event-processing thread running a handler on the completions of
    one request.  The promise is a local of the issuing call: once it
    holds a value [future.get()] returns and the call's frame is gone,
    so only completions up to the first fulfilment belong to the call. *)
Fixpoint deliver {C : Type}
    (cb : C -> promise -> list effect * option promise)
    (cs : list C) (p : promise) : list effect * promise :=
  match cs with
  | [] => ([], p)
  | c :: rest =>
    match p with
    | Ready _ => ([], p)
    | Pending =>
      match cb c p with
      | (out, Some p') =>
        let '(out', p'') := deliver cb rest p' in (out ++ out', p'')
      | (out, None) => (out, p)
      end
    end
  end.

(** ** Calls made by the application thread

    A call either returns, or never does because [future.get()] waits
    on a promise that nobody fulfils. *)
Inductive outcome (A : Type) : Type :=
| Returns (a : A) (c : LEClient)
| Blocks (c : LEClient).
Arguments Returns {A} _ _.
Arguments Blocks {A} _.

Definition M (A : Type) : Type := LEClient -> list effect * outcome A.

Definition pure {A} (a : A) : M A := fun c => ([], Returns a c).

Definition bind {A B} (m : M A) (k : A -> M B) : M B :=
  fun c =>
    match m c with
    | (out, Returns a c') => let '(out', r) := k a c' in (out ++ out', r)
    | (out, Blocks c') => (out, Blocks c')
    end.

Notation "x <- m ;; k" := (bind m (fun x => k))
  (at level 100, m at next level, right associativity).
Notation "m ;;; k" := (bind m (fun _ => k))
  (at level 100, right associativity).

Definition emit (out : list effect) : M unit := fun c => (out, Returns tt c).
Definition say (fmt : string) (args : list arg) : M unit :=
  emit [printf fmt args].
Definition request (g : gatt_call) : M unit := emit [Call g].
Definition get_session : M Z := fun c => ([], Returns (reliable_session_id_ c) c).
Definition set_session (id : Z) : M unit :=
  fun _ => ([], Returns tt {| reliable_session_id_ := id |}).
Definition when (b : bool) (m : M unit) : M unit := if b then m else pure tt.

(** [future.get()]. *)
Definition future_get (p : promise) : M Z :=
  fun c => match p with
           | Ready v => ([], Returns v c)
           | Pending => ([], Blocks c)
           end.

(** Dispatch with a fresh promise as [user_data], then let the event
    thread run the handler. *)
Definition await {C : Type}
    (cb : C -> promise -> list effect * option promise)
    (cs : list C) : M promise :=
  fun c => let '(out, p) := deliver cb cs Pending in (out, Returns p c).

(** [LEClient::read_value] and [LEClient::read_long_value]: both are
    [void] and return as soon as the request is handed over. *)
Definition read_value (handle : Z) (r : reply read_completion) : M unit :=
  request (bt_gatt_client_read_value handle) ;;;
  when (ret r =? 0) (say "Failed to initiate read value\n" []).

Definition read_long_value (handle offset : Z) (r : reply read_completion)
  : M unit :=
  request (bt_gatt_client_read_long_value handle offset) ;;;
  when (ret r =? 0) (say "Failed to initiate read long value\n" []).

(** [LEClient::write_long_value]. *)
Definition write_long_value (reliable_writes : bool) (handle offset : Z)
    (value : list Z) (r : reply long_completion) : M unit :=
  request (bt_gatt_client_write_long_value reliable_writes handle offset value) ;;;
  when (ret r =? 0)
       (say "Failed to initiate bt_gatt_client_write_long_value\n" []) ;;;
  p <- await write_long_cb (completions r) ;;
  rc <- future_get p ;;
  when (negb (rc =? 0))
       (say "bt_gatt_client_write_long_value failed: %s (0x%02x)\n"
            [to_string rc; int_arg rc]).

(** [LEClient::write_prepare]; [r] is the session id that
    [bt_gatt_client_prepare_write] returns. *)
Definition write_prepare (id handle offset : Z) (value : list Z) (r : Z)
  : M unit :=
  cur <- get_session ;;
  if negb (cur =? id) then
    say "Session id != Ongoing session id (%u!=%u)\n" [int_arg id; int_arg cur]
  else
    request (bt_gatt_client_prepare_write id handle offset value) ;;;
    set_session r ;;;
    when (r =? 0) (say "Failed to proceed prepare write\n" []) ;;;
    say "Prepare write success.\nSession id: %d to be used on next write\n"
        [int_arg r].

(** [LEClient::write_execute]. *)
Definition write_execute (session_id : Z) (execute : bool)
    (r : reply write_completion) : M unit :=
  (if execute then
     request (bt_gatt_client_write_execute session_id) ;;;
     when (ret r =? 0) (say "Failed to proceed write execute\n" []) ;;;
     p <- await write_cb (completions r) ;;
     rc <- future_get p ;;
     when (negb (rc =? 0))
          (say "Write failed: %s (0x%02x)\n" [to_string rc; int_arg rc])
   else
     request (bt_gatt_client_cancel session_id)) ;;;
  set_session 0.

(** The requests among the effects of a call, in order. *)
Definition requests (out : list effect) : list gatt_call :=
  omap (fun e => match e with Call g => Some g | printf _ _ => None end) out.

(** The lines printed among the effects of a call, in order. *)
Definition printed (out : list effect) : list (string * list arg) :=
  omap (fun e => match e with
                 | Call _ => None
                 | printf fmt args => Some (fmt, args)
                 end) out.

End LEClient.

(* ================================================================== *)
(** * The specification's tables and formulas                          *)
(* ================================================================== *)

Module Spec.

Inductive field : Type := X | Y.

Definition other (f : field) : field :=
  match f with X => Y | Y => X end.

Definition read (f : field) (a : Joystick.AxisState) : Z :=
  match f with X => Joystick.x a | Y => Joystick.y a end.

(** Axis index routing as the specification words it: raw numbers 0,1
    are slot 0's (x,y); 2,5 slot 2's (x,y); 3,4 slot 1's (x,y); 6,7
    slot 3's (x,y); any other raw number addresses nothing. *)
Definition axis_routing (raw : Z) : option (Z * field) :=
  match raw with
  | 0 => Some (0, X) | 1 => Some (0, Y)
  | 2 => Some (2, X) | 5 => Some (2, Y)
  | 3 => Some (1, X) | 4 => Some (1, Y)
  | 6 => Some (3, X) | 7 => Some (3, Y)
  | _ => None
  end.

(** Deadzone transform as the specification words it: 0 for |v| < T and
    sign(v) * (|v| - T) for |v| >= T, with the mathematical sign. *)
Definition deadzone (T v : Z) : Z :=
  if Z.abs v <? T then 0 else Z.sgn v * (Z.abs v - T).

(** The completions of a long write that the specification lets fulfil
    the pending operation: a final success or a concrete error code,
    not "reliable write not verified". *)
Definition final (c : LEClient.long_completion) : bool :=
  LEClient.success c || negb (LEClient.reliable_error c).

Definition status (c : LEClient.long_completion) : Z :=
  if LEClient.success c then 0 else LEClient.att_ecode c.

(** What the specification has a read hand back: the bytes read on
    success, the protocol error code on failure. *)
Definition read_result (c : LEClient.read_completion) : list Z + Z :=
  if LEClient.r_success c then inl (LEClient.r_value c)
  else inr (LEClient.r_att_ecode c).

(** "The read operation returns the read bytes or an error code to the
    caller": what the caller holds when [read_value] has returned (the
    value returned and the client object) determines the result of the
    completion of a dispatched request. *)
Definition read_value_returns_result : Prop :=
  exists decode : LEClient.outcome unit -> list Z + Z,
    forall handle comp c,
      decode (snd (LEClient.read_value handle
                     {| LEClient.ret := 1; LEClient.completions := [comp] |} c))
      = read_result comp.

End Spec.

(* ================================================================== *)
(** * Concrete inputs used to exercise the statements                  *)
(* ================================================================== *)

Module Sample.

Import Joystick.

(** An Xbox 360 pad as the kernel reports it, 8 axes and 11 buttons,
    right after construction; no callback payload is needed. *)
Definition pad : Joystick unit :=
  {| fd_ := 3; num_axes_ := 8; num_buttons_ := 11;
     axis_map_ := init_axes 8; button_map_ := init_buttons 11 |}.

Definition axis_event (n v : Z) : js_event :=
  {| time := 0; value := v; type := JS_EVENT_AXIS; number := n |}.

Definition button_event (n v : Z) : js_event :=
  {| time := 0; value := v; type := JS_EVENT_BUTTON; number := n |}.

(** The pad with the left stick pushed: x = 20000, y = -500. *)
Definition pushed : Joystick unit :=
  on_axis (axis_event 1 (-500)) (on_axis (axis_event 0 20000) pad).

(** Two observations of the control loop: an iteration with the stick
    pushed, then one before which the interrupt arrived. *)
Definition run : list (MiniproMain.observation unit) :=
  [ {| MiniproMain.interrupts := [];
       MiniproMain.at_throttle := pushed; MiniproMain.at_steering := pushed |};
    {| MiniproMain.interrupts := [MiniproMain.SIGINT];
       MiniproMain.at_throttle := pushed; MiniproMain.at_steering := pushed |} ].

(** A client with reliable-write session 7 open. *)
Definition client : LEClient.LEClient := {| LEClient.reliable_session_id_ := 7 |}.

(** A commit whose dispatch fails: the collaborator returns 0 and never
    calls back. *)
Definition refused : LEClient.reply LEClient.write_completion :=
  {| LEClient.ret := 0; LEClient.completions := [] |}.

(** Two successful read completions with different payloads. *)
Definition read_of (bytes : list Z) : LEClient.read_completion :=
  {| LEClient.r_success := true; LEClient.r_att_ecode := 0;
     LEClient.r_value := bytes |}.

End Sample.

(* ================================================================== *)
(** * The remaining operations of [bluetooth::LEClient]                *)
(* ================================================================== *)

Module Facade.

Import LEClient.

(** Requests of the operations below, with the arguments the facade
    passes. *)
Inductive call : Type :=
| bt_gatt_client_write_without_response
    (handle : Z) (signed_write : bool) (value : list Z)
| bt_gatt_client_write_value (handle : Z) (value : list Z)
| bt_gatt_client_set_security (level : Z).

(** What these operations do to the outside: their own requests, and
    the requests and output lines of the operations modelled above. *)
Inductive effect : Type :=
| Req (c : call)
| Eff (e : LEClient.effect).

Definition op (A : Type) : Type := LEClient -> list effect * outcome A.

#[export] Instance op_ret : MRet op :=
  fun A a c => ([], Returns a c).

#[export] Instance op_bind : MBind op :=
  fun A B k m c =>
    match m c with
    | (out, Returns a c') => let '(out', r) := k a c' in (out ++ out', r)
    | (out, Blocks c') => (out, Blocks c')
    end.

(** An action of the earlier operations, run here. *)
Definition lift {A} (m : M A) : op A :=
  fun c => let '(out, r) := m c in (Eff <$> out, r).

Definition ask (g : call) : op unit := fun c => ([Req g], Returns tt c).
Definition tell (fmt : string) (args : list arg) : op unit :=
  lift (say fmt args).
Definition unless_ok (r : Z) (m : op unit) : op unit :=
  if r =? 0 then m else mret tt.

(** [LEClient::write_value]. *)
Definition write_value (handle : Z) (value : list Z)
    (without_response signed_write : bool) (r : reply write_completion)
  : op unit :=
  if without_response then
    ask (bt_gatt_client_write_without_response handle signed_write value) ;;
    unless_ok (ret r)
      (tell "Failed to initiate write-without-response procedure\n" [])
  else
    ask (bt_gatt_client_write_value handle value) ;;
    unless_ok (ret r) (tell "Failed to initiate write procedure\n" []) ;;
    p ← lift (await write_cb (completions r)) ;
    rc ← lift (future_get p) ;
    if rc =? 0 then mret tt else tell "write_value failed\n" [].

(** [LEClient::set_security]; [r] is what [bt_gatt_client_set_security]
    returns. *)
Definition set_security (level : Z) (r : Z) : op unit :=
  if (level <? 1) || (level >? 3) then
    tell "Invalid level: %d\n" [int_arg level]
  else
    ask (bt_gatt_client_set_security level) ;;
    unless_ok r (tell "Could not set security level\n" []).

(** The handler of [LEClient::read_multiple]. *)
Definition read_multiple_cb (c : read_completion) : list LEClient.effect :=
  if negb (r_success c) then
    [printf "\nRead multiple request failed: 0x%02x\n" [int_arg (r_att_ecode c)]]
  else
    printf "\nRead multiple value (%u bytes):"
           [int_arg (Z.of_nat (length (r_value c)))] ::
    map (fun b => printf "%02x " [int_arg b]) (r_value c) ++
    [printf "\n" []].

(** [LEClient::notify_cb]. *)
Definition notify_cb (value_handle : Z) (value : list Z)
  : list LEClient.effect :=
  printf "Handle Value Not/Ind: 0x%04x - " [int_arg value_handle] ::
  if Z.of_nat (length value) =? 0 then [printf "(0 bytes)\n" []]
  else
    printf "(%u bytes): " [int_arg (Z.of_nat (length value))] ::
    map (fun b => printf "%02x " [int_arg b]) value ++
    [printf "\n" []].

(** [LEClient::local_counter]: the function-local [static uint32_t cnt]
    is the argument; the result is the value returned, the value stored
    through [sign_cnt] and the counter afterwards. *)
Definition local_counter (cnt : Z) : bool * Z * Z :=
  (true, cnt, (cnt + 1) mod 2 ^ 32).

(** Successive calls of [local_counter], starting with the counter at
    [cnt]: the values stored through [sign_cnt], and the counter left. *)
Fixpoint sign_counters (n : nat) (cnt : Z) : list Z * Z :=
  match n with
  | O => ([], cnt)
  | S n' =>
    let '(_, sign_cnt, cnt') := local_counter cnt in
    let '(rest, last) := sign_counters n' cnt' in
    (sign_cnt :: rest, last)
  end.

(** The arguments of the ["%02x "] lines of a handler's output. *)
Definition hex_bytes (out : list LEClient.effect) : list Z :=
  omap (fun e => match e with
                 | printf "%02x " [int_arg b] => Some b
                 | _ => None
                 end) out.

(** The requests made here, in order. *)
Definition asked (out : list effect) : list call :=
  omap (fun e => match e with Req g => Some g | Eff _ => None end) out.

(** The lines printed here, in order. *)
Definition told (out : list effect) : list (string * list arg) :=
  omap (fun e => match e with
                 | Eff (printf fmt args) => Some (fmt, args)
                 | _ => None
                 end) out.

End Facade.

(* ================================================================== *)
(** * Construction of the client: [LEClient::LEClient], [ready_cb]     *)
(* ================================================================== *)

Module Connect.

Import Joystick.

(** What the constructor does, in program order: calls into the BlueZ
    main loop, ATT and GATT layers, the start of the event thread, the
    wait on the condition variable and the lines it prints. *)
Inductive step : Type :=
| mainloop_init
| l2cap_connect
| bt_att_new (fd : Z)
| bt_att_set_close_on_unref
| bt_att_register_disconnect
| gatt_db_new
| bt_gatt_client_new (mtu : Z)
| gatt_db_register
| bt_gatt_client_set_ready_handler
| bt_gatt_client_set_service_changed
| gatt_db_unref
| bt_att_unref
| start_input_thread
| wait_for_ready
| to_stderr (msg : string)
| to_stdout (msg : string).

#[export] Instance step_eq_dec : EqDecision step.
Proof. solve_decision. Defined.






(** [LEClient::ready_cb]: the line printed, [ready_] afterwards, and
    whether the waiters on [cv_] were notified. *)
Definition ready_cb (success : bool) (att_ecode : Z) (ready_ : bool)
  : list LEClient.effect * bool * bool :=
  if negb success then
    ([LEClient.printf
        "GATT discovery procedures failed - error code: 0x%02x\n"
        [LEClient.int_arg att_ecode]],
     ready_, false)
  else ([], true, true).

(** [ready_] after the collaborator has reported a sequence of
    discovery results. *)
Definition ready_after (reports : list (bool * Z)) (ready_ : bool) : bool :=
  foldl (fun r '(success, att_ecode) => snd (fst (ready_cb success att_ecode r)))
        ready_ reports.

End Connect.

(* ================================================================== *)
(** * Reading runs of the poller and of the control loop               *)
(* ================================================================== *)

Module Runs.

Import Joystick.

#[export] Instance field_eq_dec : EqDecision Spec.field.
Proof. solve_decision. Defined.

(** The entry and field that the [switch (event.number)] of the polling
    loop assigns; it is the table [Spec.axis_routing]. *)
Definition target (e : js_event) : option (Z * Spec.field) :=
  Spec.axis_routing (number e).

(** The value carried by the last axis event of a run that was stored in
    field [f] of entry [slot], or [before] when there is none. *)
Definition latest (slot : Z) (f : Spec.field) (reads : list (option js_event))
    (before : Z) : Z :=
  foldl (fun acc r =>
           match r with
           | Some e =>
             if decide (type e = JS_EVENT_AXIS /\ target e = Some (slot, f))
             then value e else acc
           | None => acc
           end) before reads.

(** The calls the loop body makes on the [MiniPro] object. *)
Definition is_drive (a : MiniproMain.action) : Prop :=
  exists t s, a = MiniproMain.drive t s.

(** The readings an [int16_t] can hold. *)
Definition int16 (v : Z) : Prop := -32768 <= v <= 32767.

End Runs.

(* ================================================================== *)
(** * Further concrete inputs                                          *)
(* ================================================================== *)

Module Cases.

Import Joystick.

(** A device that reports no axis and no button. *)
Definition bare : Joystick unit :=
  {| fd_ := 3; num_axes_ := 0; num_buttons_ := 0;
     axis_map_ := init_axes 0; button_map_ := init_buttons 0 |}.

(** One iteration with the stick pushed, then one on the bare device. *)
Definition broken_run : list (MiniproMain.observation unit) :=
  [ {| MiniproMain.interrupts := [];
       MiniproMain.at_throttle := Sample.pushed;
       MiniproMain.at_steering := Sample.pushed |};
    {| MiniproMain.interrupts := [];
       MiniproMain.at_throttle := bare; MiniproMain.at_steering := bare |} ].

(** The initial-state events of a two-axis, one-button device, then a
    failed read. *)
Definition initial_events : list (option js_event) :=
  [ Some {| time := 0; value := 0; type := 129; number := 0 |};
    Some {| time := 0; value := -3; type := 130; number := 0 |};
    Some {| time := 0; value := 7; type := 130; number := 1 |};
    None ].

(** The stick moved three times, the trigger once. *)
Definition moves : list (option js_event) :=
  [ Some (Sample.axis_event 0 100); None; Some (Sample.axis_event 1 (-7));
    Some (Sample.axis_event 2 55); Some (Sample.axis_event 0 300) ].

End Cases.

(* ================================================================== *)
(** * Properties of the input poller                                   *)
(* ================================================================== *)

Section JoystickFacts.

Import Joystick.

Context {callback : Type}.

Implicit Types (j : Joystick callback) (e : js_event).

(** ** Field stores *)

Lemma store_x_lookup i v (m : gmap Z AxisState) :
  store_x i v m !! i = Some {| x := v; y := y (m !!! i) |}.
Proof. unfold store_x. apply lookup_insert_eq. Qed.

Lemma store_y_lookup i v (m : gmap Z AxisState) :
  store_y i v m !! i = Some {| x := x (m !!! i); y := v |}.
Proof. unfold store_y. apply lookup_insert_eq. Qed.

Lemma store_x_other i k v (m : gmap Z AxisState) :
  i <> k -> store_x i v m !! k = m !! k.
Proof. intros Hne. unfold store_x. by apply lookup_insert_ne. Qed.

Lemma store_y_other i k v (m : gmap Z AxisState) :
  i <> k -> store_y i v m !! k = m !! k.
Proof. intros Hne. unfold store_y. by apply lookup_insert_ne. Qed.

Lemma store_x_total i v (m : gmap Z AxisState) :
  store_x i v m !!! i = {| x := v; y := y (m !!! i) |}.
Proof. unfold store_x. apply lookup_total_insert_eq. Qed.

Lemma store_y_total i v (m : gmap Z AxisState) :
  store_y i v m !!! i = {| x := x (m !!! i); y := v |}.
Proof. unfold store_y. apply lookup_total_insert_eq. Qed.


(** ** The constructor's loops *)

Lemma fill_lookup {V} (f : gmap Z V -> Z -> gmap Z V) (v : V) :
  (forall acc i, f acc i = <[ i := v ]> acc) ->
  forall (l : list Z) (m : gmap Z V) k,
    foldl f m l !! k = if decide (k ∈ l) then Some v else m !! k.
Proof.
  intros Hf l. induction l as [|i l IH]; intros m k; cbn [foldl].
  - case_decide as Hin; [by apply elem_of_nil in Hin | done].
  - rewrite IH, Hf. destruct (decide (k = i)) as [->|Hne].
    + rewrite lookup_insert_eq, (decide_True _ _ (list_elem_of_here i l)).
      by destruct (decide (i ∈ l)).
    + rewrite lookup_insert_ne by done.
      destruct (decide (k ∈ l)) as [Hl|Hl].
      * by rewrite decide_True by (by apply list_elem_of_further).
      * rewrite decide_False; [done|].
        intros [?|?]%elem_of_cons; contradiction.
Qed.

Lemma seqZ_decide {V} (n k : Z) (a b : V) :
  (if decide (k ∈ seqZ 0 n) then a else b)
  = (if decide (0 <= k < n) then a else b).
Proof.
  destruct (decide (k ∈ seqZ 0 n)) as [Hin|Hin], (decide (0 <= k < n));
    try done; exfalso; rewrite elem_of_seqZ in Hin; lia.
Qed.

Lemma init_buttons_lookup n k :
  init_buttons (callback := callback) n !! k
  = if decide (0 <= k < n) then Some None else None.
Proof.
  unfold init_buttons.
  rewrite (fill_lookup _ None) by done.
  by rewrite lookup_empty, seqZ_decide.
Qed.


Lemma new_inv fd na nb j :
  new fd (Some na) (Some nb) = inr j ->
  fd <> -1 /\ num_axes_ j = na /\ num_buttons_ j = nb /\
  axis_map_ j = init_axes na /\ button_map_ j = init_buttons nb.
Proof.
  unfold new. destruct (Z.eqb_spec fd (-1)); [discriminate|].
  intros [= <-]. by cbn.
Qed.

(** ** The bounds of the tables *)

Lemma on_axis_fields e j :
  fd_ (on_axis e j) = fd_ j /\
  num_axes_ (on_axis e j) = num_axes_ j /\
  num_buttons_ (on_axis e j) = num_buttons_ j /\
  button_map_ (on_axis e j) = button_map_ j.
Proof.
  unfold on_axis. repeat case_match; by cbn.
Qed.

Lemma on_event_stepped e j j' inv :
  on_event e j = Stepped j' inv ->
  num_axes_ j' = num_axes_ j /\ num_buttons_ j' = num_buttons_ j /\
  button_map_ j' = button_map_ j.
Proof.
  unfold on_event, on_button.
  destruct (type e =? JS_EVENT_BUTTON).
  - destruct (button_map_ j !! number e) as [[cb|]|]; intros [= <- _] || discriminate; done.
  - destruct (type e =? JS_EVENT_AXIS); intros [= <- _]; [|done].
    by destruct (on_axis_fields e j) as (_ & ? & ? & ?).
Qed.

Lemma reachable_buttons_assigned j : reachable j -> buttons_assigned j.
Proof.
  induction 1 as [fd na nb j Hnew | b cb j Hj IH Hb | e j j' inv Hj IH Hstep].
  - apply new_inv in Hnew as (_ & _ & <- & _ & Hbm).
    intros n. rewrite Hbm, init_buttons_lookup.
    destruct (decide (0 <= n < num_buttons_ j)) as [Hin|Hout];
      split; intros Hn;
      first [ assumption | by eauto | by destruct Hn | contradiction ].
  - unfold set_button_callback.
    destruct (Z.geb_spec b (num_buttons_ j)) as [Hge|Hlt]; cbn; [done|].
    intros n. cbn. destruct (decide (b = n)) as [<-|Hne].
    + rewrite lookup_insert_eq. split; [lia | eauto].
    + rewrite lookup_insert_ne by done. apply IH.
  - apply on_event_stepped in Hstep as (_ & Hnb & Hbm).
    intros n. rewrite Hbm, Hnb. apply IH.
Qed.

Lemma input_thread_func_single e j :
  input_thread_func [Some e] j
  = match on_event e j with
    | Stepped j' inv => Stepped j' inv
    | Unassigned n => Unassigned n
    end.
Proof.
  cbn [input_thread_func]. destruct (on_event e j) as [j' inv|n]; [|done].
  by rewrite app_nil_r.
Qed.

Lemma button_event_in_range e j :
  reachable j -> type e = JS_EVENT_BUTTON ->
  0 <= number e < num_buttons_ j ->
  exists inv, on_event e j = Stepped j inv.
Proof.
  intros Hj Hty Hn. unfold on_event, on_button. rewrite Hty. cbn.
  apply reachable_buttons_assigned in Hj.
  destruct (proj2 (Hj (number e)) Hn) as [[cb|] ->]; eauto.
Qed.

(** C5.  An axis event stores its value in the slot and field that the
    routing table of the specification gives for its raw number (0,1 to
    slot 0's x,y; 2 to slot 2's x; 3,4 to slot 1's x,y; 5 to slot 2's y;
    6,7 to slot 3's x,y); the other field of that slot and every other
    slot keep their contents, no callback runs, and a raw number outside
    0..7 leaves the whole object as it was.  The same holds for a pass
    of the polling loop that reads this one event. *)
Theorem axis_event_routing e j :
  type e = JS_EVENT_AXIS ->
  exists j',
    on_event e j = Stepped j' [] /\
    input_thread_func [Some e] j = Stepped j' [] /\
    fd_ j' = fd_ j /\ num_axes_ j' = num_axes_ j /\
    num_buttons_ j' = num_buttons_ j /\ button_map_ j' = button_map_ j /\
    match Spec.axis_routing (number e) with
    | Some (slot, f) =>
        Spec.read f (axis_map_ j' !!! slot) = value e /\
        Spec.read (Spec.other f) (axis_map_ j' !!! slot)
          = Spec.read (Spec.other f) (axis_map_ j !!! slot) /\
        forall s, s <> slot -> axis_map_ j' !! s = axis_map_ j !! s
    | None => j' = j
    end.
Proof.
  intros Hty. exists (on_axis e j).
  assert (Hev : on_event e j = Stepped (on_axis e j) []).
  { unfold on_event. by rewrite Hty. }
  split; [done|]. split; [by rewrite input_thread_func_single, Hev|].
  destruct (on_axis_fields e j) as (Hfd & Hna & Hnb & Hbm).
  repeat (split; [done|]).
  unfold on_axis, Spec.axis_routing.
  repeat case_match; simplify_eq; try done; cbn;
    rewrite ?store_x_total, ?store_y_total; cbn;
    (split; [done|]); (split; [done|]); intros s Hs;
    by rewrite ?store_x_other, ?store_y_other.
Qed.

(** C7.  [get_axis_state] with an index at or above the axis count, and
    [set_button_callback] with an index at or above the button count,
    throw the out-of-range [runtime_error] and leave the object, with
    all its axis states and callback entries, as it was. *)
Theorem index_out_of_range_rejected j axis button cb :
  num_axes_ j <= axis ->
  num_buttons_ j <= button ->
  get_axis_state axis j
    = (j, inl (runtime_error
                 "Joystick: get_axis_state: axis value out of range")) /\
  set_button_callback button cb j
    = (j, inl (runtime_error
                 "Joystick: set_button_callback: button value out of range")).
Proof.
  intros Ha Hb. unfold get_axis_state, set_button_callback.
  destruct (Z.geb_spec axis (num_axes_ j)); [|lia].
  destruct (Z.geb_spec button (num_buttons_ j)); [|lia].
  done.
Qed.

(** C10.  In every state an open poller can reach, a button event whose
    number is at or above the button count makes the polling loop read
    an entry of the callback table that was never assigned: the loop
    looks the raw number up without comparing it with the count, whereas
    [set_button_callback] rejects the same index with an out-of-range
    error. *)
Theorem button_event_unchecked e j cb :
  reachable j ->
  type e = JS_EVENT_BUTTON ->
  num_buttons_ j <= number e ->
  button_map_ j !! number e = None /\
  on_event e j = Unassigned (number e) /\
  (forall rest, input_thread_func (Some e :: rest) j = Unassigned (number e)) /\
  set_button_callback (number e) cb j
    = (j, inl (runtime_error
                 "Joystick: set_button_callback: button value out of range")).
Proof.
  intros Hj Hty Hn.
  assert (Hnone : button_map_ j !! number e = None).
  { apply reachable_buttons_assigned in Hj.
    apply eq_None_not_Some. intros Hs. apply Hj in Hs. lia. }
  assert (Hev : on_event e j = Unassigned (number e)).
  { unfold on_event, on_button. by rewrite Hty, Hnone. }
  repeat split; try done.
  - intros rest. cbn [input_thread_func]. by rewrite Hev.
  - unfold set_button_callback.
    by destruct (Z.geb_spec (number e) (num_buttons_ j)); [|lia].
Qed.

End JoystickFacts.

(* ================================================================== *)
(** * Properties of the control loop                                   *)
(* ================================================================== *)

Section DeadzoneFacts.

Import MiniproMain.

Lemma sign_sgn v : v <> 0 -> sign v = Z.sgn v.
Proof. unfold sign. destruct (Z.gtb_spec v 0); lia. Qed.

Lemma deadzone_inside T v : Z.abs v < T -> deadzone T v = 0.
Proof. unfold deadzone. destruct (Z.ltb_spec (Z.abs v) T); [done | lia]. Qed.

Lemma deadzone_outside T v :
  T <= Z.abs v -> deadzone T v = (Z.abs v - T) * sign v.
Proof. unfold deadzone. destruct (Z.ltb_spec (Z.abs v) T); [lia | done]. Qed.

Lemma deadzone_abs T v :
  0 < T -> T <= Z.abs v -> Z.abs (deadzone T v) = Z.abs v - T.
Proof.
  intros HT Hv. rewrite deadzone_outside by done.
  unfold sign. destruct (Z.gtb_spec v 0); lia.
Qed.

Lemma deadzone_spec T v : 0 < T -> deadzone T v = Spec.deadzone T v.
Proof.
  intros HT. unfold deadzone, Spec.deadzone.
  destruct (Z.ltb_spec (Z.abs v) T); [done|].
  rewrite sign_sgn by lia. lia.
Qed.

Lemma deadzone_increasing T v w :
  0 < T -> v <= w -> deadzone T v <= deadzone T w.
Proof.
  intros HT Hvw. unfold deadzone, sign.
  destruct (Z.ltb_spec (Z.abs v) T), (Z.ltb_spec (Z.abs w) T),
           (Z.gtb_spec v 0), (Z.gtb_spec w 0); lia.
Qed.

(** The loop body applies [deadzone] with the threshold 8000 to each
    reading, and divides the steering by ten afterwards. *)
Lemma command_deadzone throttle steering :
  command throttle steering
  = drive (deadzone zero_threshold_x throttle)
          (Z.quot (deadzone zero_threshold_y steering) 10).
Proof.
  unfold command, deadzone.
  by destruct (Z.abs steering <? zero_threshold_y).
Qed.

(** With readings in the range of a negated [int16_t], no intermediate
    value of the body leaves the range of [int]. *)
Lemma deadzone_int_range v :
  -32768 <= v <= 32768 ->
  -2147483648 <= Z.abs v - zero_threshold_x <= 2147483647 /\
  -2147483648 <= deadzone zero_threshold_x v <= 2147483647.
Proof.
  intros Hv. unfold deadzone, sign, zero_threshold_x.
  destruct (Z.ltb_spec (Z.abs v) 8000), (Z.gtb_spec v 0); lia.
Qed.

(** C4.  For a positive threshold the transform that the loop body
    applies to a reading is 0 when |v| < T and sign(v) * (|v| - T) when
    |v| >= T, with the mathematical sign as with the [sign] of the
    source; it is 0 at |v| = T, and above the threshold both its
    magnitude grows with |v| and its value grows with v. *)
Theorem deadzone_transform T v :
  0 < T ->
  deadzone T v = Spec.deadzone T v /\
  (Z.abs v < T -> deadzone T v = 0) /\
  (T <= Z.abs v -> deadzone T v = Z.sgn v * (Z.abs v - T)) /\
  (T <= Z.abs v -> deadzone T v = sign v * (Z.abs v - T)) /\
  (Z.abs v = T -> deadzone T v = 0) /\
  (forall w, T <= Z.abs v -> Z.abs v <= Z.abs w ->
             Z.abs (deadzone T v) <= Z.abs (deadzone T w)) /\
  (forall w, v <= w -> deadzone T v <= deadzone T w) /\
  (forall steering,
     command v steering
     = drive (deadzone zero_threshold_x v)
             (Z.quot (deadzone zero_threshold_y steering) 10)).
Proof.
  intros HT. split; [by apply deadzone_spec|].
  split; [apply deadzone_inside|].
  split.
  { intros Hv. rewrite deadzone_outside, sign_sgn by lia. lia. }
  split.
  { intros Hv. rewrite deadzone_outside by lia. lia. }
  split.
  { intros Hv. rewrite deadzone_outside by lia. lia. }
  split.
  { intros w Hv Hw. rewrite !deadzone_abs by lia. lia. }
  split; [intros w; by apply deadzone_increasing|].
  intros steering. apply command_deadzone.
Qed.

End DeadzoneFacts.

Section ControlLoopFacts.

Import Joystick MiniproMain.

Context {callback : Type}.

Implicit Types (o : observation callback) (obs : list (observation callback))
  (j : Joystick callback).

Lemma drives_app t1 t2 : drives (t1 ++ t2) = drives t1 ++ drives t2.
Proof. unfold drives. apply omap_app. Qed.

Lemma interrupted (l : list Z) flag :
  foldl (fun flag signum => signal_handler signum flag) flag l
  = match l with [] => flag | _ :: _ => true end.
Proof.
  assert (Hset : forall l' : list Z,
            foldl (fun flag signum => signal_handler signum flag) true l'
            = true) by (by induction l').
  destruct l as [|s l]; [done|]. exact (Hset l).
Qed.

(** The loop ends on the flag exactly when an interrupt was delivered
    before some evaluation of the condition and every earlier iteration
    ran its body to the end. *)
Lemma control_loop_flag_seen obs acts :
  control_loop false obs = (acts, flag_seen) ->
  exists before o rest,
    obs = before ++ o :: rest /\
    interrupts o <> [] /\
    Forall (fun o' => interrupts o' = []) before /\
    Forall2 (fun o' a => body o' = inr a) before acts.
Proof.
  revert acts. induction obs as [|o obs IH]; intros acts; cbn [control_loop].
  - discriminate.
  - rewrite interrupted. destruct (interrupts o) as [|s l] eqn:Hint.
    + destruct (body o) as [e|a] eqn:Hbody; [discriminate|].
      destruct (control_loop false obs) as [acts' fin] eqn:Hrest.
      intros [= <- ->].
      destruct (IH acts' eq_refl)
        as (before & o' & rest & -> & Ho' & Hb & Hacts).
      exists (o :: before), o', rest. repeat split; try done.
      * by constructor.
      * by constructor.
    + intros [= <-]. exists [], o, obs. rewrite Hint. by repeat split.
Qed.

(** Conversely, a run of completed iterations followed by an interrupt
    ends the loop on the flag. *)
Lemma control_loop_exits before o rest acts :
  Forall (fun o' => interrupts o' = []) before ->
  Forall2 (fun o' a => body o' = inr a) before acts ->
  interrupts o <> [] ->
  control_loop false (before ++ o :: rest) = (acts, flag_seen).
Proof.
  intros Hb Hacts Ho. revert Hb.
  induction Hacts as [|o' a before acts Hbody _ IH]; intros Hb;
    cbn [app control_loop]; rewrite interrupted.
  - by destruct (interrupts o).
  - apply Forall_cons in Hb as [Ho' Hb]. by rewrite Ho', Hbody, IH.
Qed.

(** C9.  When the loop is left because the flag set by the interrupt
    handler was read, [main] has issued one drive command per completed
    iteration and then exactly one more, [drive 0 0], followed by
    leaving remote control mode, disabling notifications and the release
    of the connection; [main] returns 0 and the last drive command of
    the run is (0, 0). *)
Theorem final_neutral_drive j obs :
  snd (control_loop false obs) = flag_seen ->
  exists before o rest acts,
    obs = before ++ o :: rest /\
    interrupts o <> [] /\
    Forall (fun o' => interrupts o' = []) before /\
    Forall2 (fun o' a => body o' = inr a) before acts /\
    main true (inr j) obs
      = ([enable_notifications; enter_remote_control_mode] ++ acts ++
         [drive 0 0; exit_remote_control_mode; disable_notifications; release],
         Some 0) /\
    drives (fst (main true (inr j) obs)) = drives acts ++ [(0, 0)] /\
    last (drives (fst (main true (inr j) obs))) = Some (0, 0).
Proof.
  intros Hfin. destruct (control_loop false obs) as [acts fin] eqn:Hloop.
  cbn in Hfin. subst fin.
  destruct (control_loop_flag_seen _ _ Hloop)
    as (before & o & rest & Hobs & Ho & Hb & Hacts).
  exists before, o, rest, acts. repeat (split; [done|]).
  assert (Hmain : main true (inr j) obs
      = ([enable_notifications; enter_remote_control_mode] ++ acts ++
         [drive 0 0; exit_remote_control_mode; disable_notifications; release],
         Some 0)).
  { unfold main. cbn [negb]. by rewrite Hloop. }
  split; [done|]. rewrite Hmain. cbn [fst].
  assert (Hd : drives ([enable_notifications; enter_remote_control_mode] ++ acts ++
         [drive 0 0; exit_remote_control_mode; disable_notifications; release])
         = drives acts ++ [(0, 0)]).
  { by rewrite !drives_app. }
  rewrite Hd. split; [done|]. apply last_snoc.
Qed.

(** C6.  A poller opened on a device reporting 4 axes, after a raw
    axis-0 event with value 20000 and a raw axis-1 event with value
    -500, answers [get_axis_state 0] with (20000, -500); the loop body
    then has throttle 500, which the deadzone with threshold 8000 sends
    to 0, and steering -20000, which the deadzone sends to -12000 and
    the division by ten to -1200: the command issued is [drive 0 (-1200)]. *)
Theorem end_to_end_scenario fd nb t0 t1 :
  fd <> -1 ->
  exists j0 j1 : Joystick callback,
    new fd (Some 4) (Some nb) = inr j0 /\
    input_thread_func
      [Some {| time := t0; value := 20000; type := JS_EVENT_AXIS; number := 0 |};
       Some {| time := t1; value := -500; type := JS_EVENT_AXIS; number := 1 |}]
      j0 = Stepped j1 [] /\
    get_axis_state 0 j1 = (j1, inr {| x := 20000; y := -500 |}) /\
    deadzone zero_threshold_x (- -500) = 0 /\
    deadzone zero_threshold_y (- 20000) = -12000 /\
    Z.quot (-12000) 10 = -1200 /\
    body {| interrupts := []; at_throttle := j1; at_steering := j1 |}
      = inr (drive 0 (-1200)).
Proof.
  intros Hfd.
  set (j0 := {| fd_ := fd; num_axes_ := 4; num_buttons_ := nb;
                axis_map_ := init_axes 4;
                button_map_ := init_buttons (callback := callback) nb |}).
  set (m1 := store_y 0 (-500) (store_x 0 20000 (init_axes 4))).
  exists j0, (with_axis_map m1 j0).
  assert (Hget : get_axis_state 0 (with_axis_map m1 j0)
                 = (with_axis_map m1 j0, inr {| x := 20000; y := -500 |})).
  { unfold get_axis_state. cbn. unfold m1.
    by rewrite store_y_total, store_x_total. }
  split.
  { unfold new. by destruct (Z.eqb_spec fd (-1)). }
  split; [done|]. split; [done|].
  split; [done|]. split; [done|]. split; [done|].
  unfold body. cbn [at_throttle at_steering].
  unfold Axis_LeftThumbstick. by rewrite Hget.
Qed.

End ControlLoopFacts.

(* ================================================================== *)
(** * Properties of the GATT operation facade                          *)
(* ================================================================== *)

Section LEClientFacts.

Import LEClient.

Implicit Types (c : LEClient) (p : promise).

Lemma deliver_ready {C} (cb : C -> promise -> list effect * option promise)
    (cs : list C) v :
  deliver cb cs (Ready v) = ([], Ready v).
Proof. by destruct cs. Qed.

(** ** The long-write handler *)

(** A "not verified" completion is skipped: the promise stays pending
    and the next completion is handled. *)
Lemma deliver_write_long_unverified lc (cs : list long_completion) :
  Spec.final lc = false ->
  deliver write_long_cb (lc :: cs) Pending
  = (printf "Reliable write not verified\n" []
       :: fst (deliver write_long_cb cs Pending),
     snd (deliver write_long_cb cs Pending)).
Proof.
  intros Hf. cbn [deliver].
  assert (write_long_cb lc Pending
          = ([printf "Reliable write not verified\n" []], Some Pending)) as ->.
  { unfold Spec.final in Hf. unfold write_long_cb.
    by destruct (success lc), (reliable_error lc). }
  by destruct (deliver write_long_cb cs Pending).
Qed.

Lemma deliver_write_long_final lc (cs : list long_completion) :
  Spec.final lc = true ->
  deliver write_long_cb (lc :: cs) Pending = ([], Ready (Spec.status lc)).
Proof.
  intros Hf. cbn [deliver].
  assert (write_long_cb lc Pending = ([], Some (Ready (Spec.status lc)))) as ->.
  { unfold Spec.final in Hf. unfold write_long_cb, Spec.status.
    by destruct (success lc), (reliable_error lc). }
  by rewrite deliver_ready.
Qed.

(** After any sequence of completions the promise holds the status of
    the first final one, and is still pending when there is none. *)
Lemma deliver_write_long (cs : list long_completion) :
  snd (deliver write_long_cb cs Pending)
  = match find Spec.final cs with
    | Some lc => Ready (Spec.status lc)
    | None => Pending
    end.
Proof.
  induction cs as [|lc cs IH]; [done|]. cbn [find].
  destruct (Spec.final lc) eqn:Hf.
  - by rewrite deliver_write_long_final.
  - by rewrite deliver_write_long_unverified.
Qed.

(** [write_long_value] returns when some completion is final and waits
    for ever otherwise; the client object is not changed. *)
Lemma write_long_value_outcome reliable_writes handle offset value
    (r : reply long_completion) c :
  snd (write_long_value reliable_writes handle offset value r c)
  = match find Spec.final (completions r) with
    | Some _ => Returns tt c
    | None => Blocks c
    end.
Proof.
  pose proof (deliver_write_long (completions r)) as Hd.
  unfold write_long_value, bind, request, emit, when, say, emit, await,
    future_get, pure.
  destruct (ret r =? 0);
    destruct (deliver write_long_cb (completions r) Pending) as [out p];
    cbn in Hd; subst p;
    destruct (find Spec.final (completions r)) as [lc|]; cbn; try done;
    by destruct (Spec.status lc =? 0).
Qed.

Lemma deliver_write_long_fulfilled (cs : list long_completion) :
  fulfilled (snd (deliver write_long_cb cs Pending)) = true
  <-> exists lc, lc ∈ cs /\ Spec.final lc = true.
Proof.
  rewrite deliver_write_long.
  destruct (find Spec.final cs) as [lc|] eqn:Hfind; cbn [fulfilled].
  - apply find_some in Hfind as [Hin Hf]. split; [|done].
    intros _. exists lc. split; [by apply list_elem_of_In | done].
  - split; [done|]. intros (lc & Hin & Hf).
    apply list_elem_of_In in Hin.
    by rewrite (find_none _ _ Hfind lc Hin) in Hf.
Qed.

(** C1.  One invocation of the long-write completion handler on a
    pending slot fulfils it exactly when the completion is a success
    (with 0) or carries a concrete error code (with that code); in the
    "reliable write not verified" branch the handler only prints and
    leaves the slot, whatever it holds, untouched.  Over a sequence of
    completions the slot therefore ends fulfilled exactly when one of
    them is final. *)
Theorem write_long_cb_fulfilment (lc : long_completion) :
  exists out p',
    write_long_cb lc Pending = (out, Some p') /\
    (fulfilled p' = true <->
       success lc = true \/ (success lc = false /\ reliable_error lc = false)) /\
    (success lc = true -> p' = Ready 0) /\
    (success lc = false -> reliable_error lc = false ->
       p' = Ready (att_ecode lc)) /\
    (success lc = false -> reliable_error lc = true ->
       p' = Pending /\
       out = [printf "Reliable write not verified\n" []] /\
       forall p, snd (write_long_cb lc p) = Some p) /\
    (forall cs : list long_completion,
       fulfilled (snd (deliver write_long_cb cs Pending)) = true
       <-> exists lc', lc' ∈ cs /\ Spec.final lc' = true).
Proof.
  unfold write_long_cb.
  destruct (success lc) eqn:Hs; [|destruct (reliable_error lc) eqn:Hr];
    cbn [set_value]; eexists _, _; (split; [reflexivity|]); cbn [fulfilled].
  - split; [by split; [left|] |]. split; [done|]. split; [done|].
    split; [done|]. apply deliver_write_long_fulfilled.
  - split; [split; [done | by intros [?|[? ?]]] |].
    split; [done|]. split; [done|]. split.
    + intros _ _. split; [done|]. split; [done|]. by intros p.
    + apply deliver_write_long_fulfilled.
  - split; [by split; [right|] |]. split; [done|]. split; [done|].
    split; [done|]. apply deliver_write_long_fulfilled.
Qed.

(** ** Reliable-write sessions *)

(** With the open session's id, [write_prepare] hands the request over
    and stores the id the collaborator returns. *)
Lemma write_prepare_current handle offset value r c :
  exists out,
    write_prepare (reliable_session_id_ c) handle offset value r c
    = (out, Returns tt {| reliable_session_id_ := r |}) /\
    requests out
    = [bt_gatt_client_prepare_write (reliable_session_id_ c) handle offset value].
Proof.
  unfold write_prepare, bind, get_session, request, set_session, when, say,
    emit, pure.
  rewrite Z.eqb_refl. cbn. by destruct (r =? 0); eexists.
Qed.

(** C2.  [write_prepare] called with an id other than the stored session
    id (0 when no session is open) prints the mismatch and returns: no
    request reaches the collaborator and the stored id is unchanged. *)
Theorem write_prepare_session_mismatch id handle offset value r c :
  id <> reliable_session_id_ c ->
  write_prepare id handle offset value r c
  = ([printf "Session id != Ongoing session id (%u!=%u)\n"
             [int_arg id; int_arg (reliable_session_id_ c)]],
     Returns tt c) /\
  requests (fst (write_prepare id handle offset value r c)) = [] /\
  forall c', snd (write_prepare id handle offset value r c) = Returns tt c' ->
             reliable_session_id_ c' = reliable_session_id_ c.
Proof.
  intros Hid.
  assert (Heq : write_prepare id handle offset value r c
    = ([printf "Session id != Ongoing session id (%u!=%u)\n"
               [int_arg id; int_arg (reliable_session_id_ c)]],
       Returns tt c)).
  { unfold write_prepare, bind, get_session, say, emit.
    destruct (Z.eqb_spec (reliable_session_id_ c) id); [congruence | done]. }
  rewrite Heq. split; [done|]. split; [done|].
  by intros c' [= <-].
Qed.

Lemma await_write_cb_cons wc (cs : list write_completion) c :
  await write_cb (wc :: cs) c
  = ([], Returns (Ready (if w_success wc then 0 else w_att_ecode wc)) c).
Proof.
  unfold await. cbn [deliver]. unfold write_cb at 1. cbn [set_value].
  by rewrite deliver_ready.
Qed.

(** C3.  Whenever [write_execute] returns, the stored session id is 0,
    whether it was asked to commit or to cancel, whatever the dispatch
    returned and whatever status the completion carried.  It returns for
    every cancel and for every commit for which a completion arrives;
    the one remaining case, a commit for which no completion ever
    arrives, never gets past [future.get()]. *)
Theorem write_execute_clears_session session_id execute
    (r : reply write_completion) c :
  (forall a c', snd (write_execute session_id execute r c) = Returns a c' ->
                reliable_session_id_ c' = 0) /\
  (execute = false \/ completions r <> [] ->
   snd (write_execute session_id execute r c)
   = Returns tt {| reliable_session_id_ := 0 |}) /\
  (execute = true /\ completions r = [] ->
   snd (write_execute session_id execute r c) = Blocks c).
Proof.
  assert (Hcancel : snd (write_execute session_id false r c)
                    = Returns tt {| reliable_session_id_ := 0 |}) by done.
  assert (Hcommit : forall wc cs, completions r = wc :: cs ->
            snd (write_execute session_id true r c)
            = Returns tt {| reliable_session_id_ := 0 |}).
  { intros wc cs Hcs.
    pose proof (await_write_cb_cons wc cs) as Hawait.
    unfold write_execute, bind, request, emit, when, say, emit, pure,
      future_get, set_session.
    rewrite Hcs.
    destruct (ret r =? 0); cbn; rewrite Hawait; cbn;
      by destruct ((if w_success wc then 0 else w_att_ecode wc) =? 0). }
  assert (Hstuck : completions r = [] ->
            snd (write_execute session_id true r c) = Blocks c).
  { intros Hcs. unfold write_execute, bind, request, emit, when, say, emit,
      pure, await, future_get. rewrite Hcs. cbn.
    by destruct (ret r =? 0). }
  split; [|split].
  - intros a c'. destruct execute.
    + destruct (completions r) as [|wc cs] eqn:Hcs.
      * by rewrite Hstuck.
      * rewrite (Hcommit wc cs eq_refl). by intros [= _ <-].
    + rewrite Hcancel. by intros [= _ <-].
  - intros [->|Hcs]; [done|]. destruct execute; [|done].
    destruct (completions r) as [|wc cs] eqn:Hcs'; [done|].
    by apply (Hcommit wc cs).
  - intros [-> Hcs]. by apply Hstuck.
Qed.

(** ** Reads *)

Lemma read_value_run handle (r : reply read_completion) c :
  read_value handle r c
  = (Call (bt_gatt_client_read_value handle)
       :: (if ret r =? 0
           then [printf "Failed to initiate read value\n" []] else []),
     Returns tt c).
Proof.
  unfold read_value, bind, request, when, say, emit, pure.
  by destruct (ret r =? 0).
Qed.

Lemma read_long_value_run handle offset (r : reply read_completion) c :
  read_long_value handle offset r c
  = (Call (bt_gatt_client_read_long_value handle offset)
       :: (if ret r =? 0
           then [printf "Failed to initiate read long value\n" []] else []),
     Returns tt c).
Proof.
  unfold read_long_value, bind, request, when, say, emit, pure.
  by destruct (ret r =? 0).
Qed.

(** What [read_cb] prints starts with "Read request failed" or with
    "Read value"; neither is a dispatch-failure line. *)
Lemma read_cb_first_line comp :
  exists args rest,
    read_cb comp = printf "Read request failed: %s (0x%02x)\n" args :: rest \/
    read_cb comp = printf "\nRead value" args :: rest.
Proof.
  unfold read_cb. destruct (r_success comp); cbn; eauto.
Qed.

(** C8, as the code has it.  [read_value] and [read_long_value] hand
    the request to the collaborator and return at once, with no value
    and the client object unchanged.  The outcome is only printed: a
    request that could not be dispatched prints "Failed to initiate read
    value" (or "... read long value"); the completion handler prints
    "Read request failed" with the protocol error code on failure and
    the bytes read on success, and never a dispatch-failure line. *)
Theorem read_value_reports_on_stdout handle offset
    (r : reply read_completion) c :
  snd (read_value handle r c) = Returns tt c /\
  snd (read_long_value handle offset r c) = Returns tt c /\
  requests (fst (read_value handle r c))
    = [bt_gatt_client_read_value handle] /\
  requests (fst (read_long_value handle offset r c))
    = [bt_gatt_client_read_long_value handle offset] /\
  printed (fst (read_value handle r c))
    = (if ret r =? 0 then [("Failed to initiate read value\n", [])] else []) /\
  printed (fst (read_long_value handle offset r c))
    = (if ret r =? 0
       then [("Failed to initiate read long value\n", [])] else []) /\
  (forall comp,
     r_success comp = false ->
     read_cb comp = [printf "Read request failed: %s (0x%02x)\n"
                            [to_string (r_att_ecode comp);
                             int_arg (r_att_ecode comp)]]) /\
  (forall comp,
     r_success comp = true ->
     read_cb comp
     = printf "\nRead value" [] ::
       match r_value comp with
       | [] => [printf ": 0 bytes\n" []]
       | _ :: _ =>
         printf " (%u bytes): " [int_arg (Z.of_nat (length (r_value comp)))]
           :: map (fun b => printf "%02x " [int_arg b]) (r_value comp)
           ++ [printf "\n" []]
       end) /\
  (forall comp,
     (printf "Failed to initiate read value\n" [] ∉ read_cb comp) /\
     (printf "Failed to initiate read long value\n" [] ∉ read_cb comp)).
Proof.
  rewrite read_value_run, read_long_value_run. cbn [fst snd].
  repeat (split; [by destruct (ret r =? 0)|]).
  split; [|split].
  - intros comp Hs. unfold read_cb. by rewrite Hs.
  - intros comp Hs. unfold read_cb. rewrite Hs. cbn [negb].
    by destruct (r_value comp).
  - intros comp. unfold read_cb.
    destruct (r_success comp); cbn [negb].
    + destruct (Z.of_nat (length (r_value comp)) =? 0).
      * split; intros Hin; repeat (apply elem_of_cons in Hin as [Hin|Hin];
          [discriminate|]); by apply elem_of_nil in Hin.
      * split; intros Hin;
          apply elem_of_cons in Hin as [Hin|Hin]; try discriminate;
          apply elem_of_cons in Hin as [Hin|Hin]; try discriminate;
          apply elem_of_app in Hin as [Hin|Hin];
          [ apply list_elem_of_fmap in Hin as (b & Hb & _); discriminate
          | apply list_elem_of_singleton in Hin; discriminate
          | apply list_elem_of_fmap in Hin as (b & Hb & _); discriminate
          | apply list_elem_of_singleton in Hin; discriminate ].
    + split; intros Hin; apply list_elem_of_singleton in Hin; discriminate.
Qed.

End LEClientFacts.

(* ================================================================== *)
(** * The statements at concrete inputs                                *)
(* ================================================================== *)

Section Instances.

Import Joystick MiniproMain LEClient.

(** The handler at the three kinds of completion. *)
Example write_long_cb_success :
  write_long_cb {| success := true; reliable_error := false; att_ecode := 0 |}
                Pending = ([], Some (Ready 0)).
Proof. reflexivity. Qed.

Example write_long_cb_unverified :
  write_long_cb {| success := false; reliable_error := true; att_ecode := 0 |}
                Pending
  = ([printf "Reliable write not verified\n" []], Some Pending).
Proof. reflexivity. Qed.

Example write_long_cb_error :
  write_long_cb {| success := false; reliable_error := false; att_ecode := 13 |}
                Pending = ([], Some (Ready 13)).
Proof. reflexivity. Qed.

(** A long write answered only by "not verified" never returns. *)
Example write_long_value_stalls :
  snd (write_long_value true 18 0 [1; 2]
         {| ret := 1;
            completions :=
              [{| success := false; reliable_error := true; att_ecode := 0 |}] |}
         Sample.client)
  = Blocks Sample.client.
Proof. reflexivity. Qed.

(** A commit whose dispatch fails prints the failure and then waits on a
    promise that is never fulfilled: the session id is still 7. *)
Example write_execute_refused :
  write_execute 7 true Sample.refused Sample.client
  = ([Call (bt_gatt_client_write_execute 7);
      printf "Failed to proceed write execute\n" []],
     Blocks Sample.client).
Proof. reflexivity. Qed.

Example write_execute_cancel :
  write_execute 7 false Sample.refused Sample.client
  = ([Call (bt_gatt_client_cancel 7)],
     Returns tt {| reliable_session_id_ := 0 |}).
Proof. reflexivity. Qed.

Example write_execute_commit_error :
  write_execute 7 true
    {| ret := 1;
       completions := [{| w_success := false; w_att_ecode := 14 |}] |}
    Sample.client
  = ([Call (bt_gatt_client_write_execute 7);
      printf "Write failed: %s (0x%02x)\n" [to_string 14; int_arg 14]],
     Returns tt {| reliable_session_id_ := 0 |}).
Proof. reflexivity. Qed.

Lemma write_prepare_session_mismatch_at_5 :
  5 <> reliable_session_id_ Sample.client /\
  write_prepare 5 18 0 [1; 2] 9 Sample.client
  = ([printf "Session id != Ongoing session id (%u!=%u)\n"
             [int_arg 5; int_arg 7]],
     Returns tt Sample.client).
Proof.
  assert (H : 5 <> reliable_session_id_ Sample.client) by (cbn; lia).
  split; [exact H|].
  exact (proj1 (write_prepare_session_mismatch 5 18 0 [1; 2] 9 Sample.client H)).
Defined.

Lemma deadzone_transform_at_8000 :
  0 < 8000 /\
  deadzone 8000 (-20000) = Spec.deadzone 8000 (-20000) /\
  (8000 <= Z.abs (-20000) ->
   deadzone 8000 (-20000) = Z.sgn (-20000) * (Z.abs (-20000) - 8000)).
Proof.
  assert (H : 0 < 8000) by lia.
  split; [exact H|].
  destruct (deadzone_transform 8000 (-20000) H) as (H1 & _ & H3 & _ & _).
  split; [exact H1 | exact H3].
Defined.

Lemma axis_event_routing_at_5 :
  type (Sample.axis_event 5 1234) = JS_EVENT_AXIS /\
  exists j',
    on_event (Sample.axis_event 5 1234) Sample.pad = Stepped j' [] /\
    y (axis_map_ j' !!! 2) = 1234 /\
    x (axis_map_ j' !!! 2) = x (axis_map_ Sample.pad !!! 2).
Proof.
  assert (H : type (Sample.axis_event 5 1234) = JS_EVENT_AXIS) by reflexivity.
  split; [exact H|].
  destruct (axis_event_routing (Sample.axis_event 5 1234) Sample.pad H)
    as (j' & Hev & _ & _ & _ & _ & _ & Hv & Ho & _).
  exists j'. split; [exact Hev|]. split; [exact Hv | exact Ho].
Defined.

Lemma end_to_end_scenario_at_fd_3 :
  3 <> -1 /\
  exists j0 j1 : Joystick unit,
    new 3 (Some 4) (Some 11) = inr j0 /\
    input_thread_func
      [Some {| time := 10; value := 20000; type := JS_EVENT_AXIS; number := 0 |};
       Some {| time := 20; value := -500; type := JS_EVENT_AXIS; number := 1 |}]
      j0 = Stepped j1 [] /\
    get_axis_state 0 j1 = (j1, inr {| x := 20000; y := -500 |}) /\
    body {| interrupts := []; at_throttle := j1; at_steering := j1 |}
      = inr (drive 0 (-1200)).
Proof.
  assert (H : 3 <> -1) by lia.
  split; [exact H|].
  destruct (end_to_end_scenario (callback := unit) 3 11 10 20 H)
    as (j0 & j1 & H0 & H1 & H2 & _ & _ & _ & H3).
  exists j0, j1. repeat split; assumption.
Defined.

Lemma index_out_of_range_rejected_at_8_11 :
  num_axes_ Sample.pad <= 8 /\
  num_buttons_ Sample.pad <= 11 /\
  snd (get_axis_state 8 Sample.pad)
    = inl (runtime_error "Joystick: get_axis_state: axis value out of range") /\
  fst (set_button_callback 11 (Some tt) Sample.pad) = Sample.pad.
Proof.
  assert (Ha : num_axes_ Sample.pad <= 8) by (cbn; lia).
  assert (Hb : num_buttons_ Sample.pad <= 11) by (cbn; lia).
  split; [exact Ha|]. split; [exact Hb|].
  destruct (index_out_of_range_rejected Sample.pad 8 11 (Some tt) Ha Hb)
    as [Hg Hs].
  split; [exact (f_equal snd Hg) | exact (f_equal fst Hs)].
Defined.

Lemma final_neutral_drive_at_run :
  snd (control_loop false Sample.run) = flag_seen /\
  main true (inr Sample.pad) Sample.run
  = ([enable_notifications; enter_remote_control_mode; drive 0 (-1200);
      drive 0 0; exit_remote_control_mode; disable_notifications; release],
     Some 0) /\
  last (drives (fst (main true (inr Sample.pad) Sample.run))) = Some (0, 0).
Proof.
  assert (H : snd (control_loop false Sample.run) = flag_seen) by reflexivity.
  split; [exact H|].
  destruct (final_neutral_drive Sample.pad Sample.run H)
    as (before & o & rest & acts & _ & _ & _ & _ & _ & _ & Hlast).
  split; [reflexivity | exact Hlast].
Defined.

Lemma button_event_unchecked_at_11 :
  reachable Sample.pad /\
  type (Sample.button_event 11 1) = JS_EVENT_BUTTON /\
  num_buttons_ Sample.pad <= number (Sample.button_event 11 1) /\
  on_event (Sample.button_event 11 1) Sample.pad = Unassigned 11 /\
  snd (set_button_callback 11 (Some tt) Sample.pad)
    = inl (runtime_error
             "Joystick: set_button_callback: button value out of range").
Proof.
  assert (Hr : reachable Sample.pad) by (by apply (reach_new 3 8 11)).
  assert (Ht : type (Sample.button_event 11 1) = JS_EVENT_BUTTON) by reflexivity.
  assert (Hn : num_buttons_ Sample.pad <= number (Sample.button_event 11 1))
    by (cbn; lia).
  split; [exact Hr|]. split; [exact Ht|]. split; [exact Hn|].
  destruct (button_event_unchecked (Sample.button_event 11 1) Sample.pad
              (Some tt) Hr Ht Hn) as (_ & Hev & _ & Hset).
  split; [exact Hev | exact (f_equal snd Hset)].
Defined.

(** C8, as the specification words it, fails: two dispatched reads
    completing with different bytes both return [tt] and the same client
    object, so nothing the caller receives determines the bytes. *)
Lemma read_value_returns_no_result :
  snd (read_value 3 {| ret := 1; completions := [Sample.read_of [42]] |}
         Sample.client) = Returns tt Sample.client /\
  snd (read_value 3 {| ret := 1; completions := [Sample.read_of [23]] |}
         Sample.client) = Returns tt Sample.client /\
  Spec.read_result (Sample.read_of [42]) <> Spec.read_result (Sample.read_of [23]) /\
  ~ Spec.read_value_returns_result.
Proof.
  split; [reflexivity|]. split; [reflexivity|]. split; [discriminate|].
  intros [decode Hdec].
  pose proof (Hdec 3 (Sample.read_of [42]) Sample.client) as H1.
  pose proof (Hdec 3 (Sample.read_of [23]) Sample.client) as H2.
  rewrite read_value_run in H1, H2. cbn in H1, H2.
  rewrite H1 in H2. discriminate H2.
Qed.

End Instances.

(* ================================================================== *)
(** * Further properties of the input poller                           *)
(* ================================================================== *)

Section PollerRuns.

Import Joystick Runs.

Context {callback : Type}.

Implicit Types (j : Joystick callback) (e : js_event)
  (reads : list (option js_event)).

Lemma flagged_type e :
  Z.land (type e) JS_EVENT_INIT <> 0 ->
  (type e =? JS_EVENT_BUTTON) = false /\ (type e =? JS_EVENT_AXIS) = false.
Proof.
  intros Hflag.
  split; apply Z.eqb_neq; intros Hty; apply Hflag; by rewrite Hty.
Qed.

Lemma on_event_other_type e j :
  (type e =? JS_EVENT_BUTTON) = false ->
  (type e =? JS_EVENT_AXIS) = false ->
  on_event e j = Stepped j [].
Proof. intros Hb Ha. unfold on_event. by rewrite Hb, Ha. Qed.

(** Field [f] of entry [slot] after the axis branch has run: the value
    of the event when the switch addresses that field, what was there
    otherwise. *)
Lemma on_axis_read e j slot f :
  Spec.read f (axis_map_ (on_axis e j) !!! slot)
  = if decide (target e = Some (slot, f)) then value e
    else Spec.read f (axis_map_ j !!! slot).
Proof.
  unfold on_axis, target, Spec.axis_routing.
  repeat case_match; try done;
    match goal with
    | H : context [decide ?P] |- _ => clear H
    end;
    cbn [axis_map_ with_axis_map];
    match goal with
    | n : Some (?s, _) <> Some (slot, f) |- _ =>
      destruct (decide (s = slot)) as [<-|Hs];
      [ rewrite ?store_x_total, ?store_y_total;
        destruct f; cbn; try done; by exfalso; apply n
      | unfold store_x, store_y; by rewrite lookup_total_insert_ne ]
    | n : Some _ = Some (slot, f) |- _ =>
      injection n as <- <-;
      by rewrite ?store_x_total, ?store_y_total
    end.
Qed.



(** X2.  After [set_button_callback] has stored a callback for a button
    below the button count, a button event with that number runs exactly
    this callback, once, with [true] for a non-zero value and [false]
    for zero; storing an empty function makes the event run nothing.
    Events for other buttons are handled as before the call, and the
    axis states are untouched. *)
Theorem registered_callback_invoked b cb j e :
  b < num_buttons_ j ->
  type e = JS_EVENT_BUTTON ->
  exists j',
    set_button_callback b cb j = (j', inr tt) /\
    axis_map_ j' = axis_map_ j /\
    (number e = b ->
       on_event e j'
       = Stepped j' match cb with
                    | Some f => [(f, negb (value e =? 0))]
                    | None => []
                    end) /\
    (number e <> b ->
       on_event e j'
       = match on_event e j with
         | Stepped _ inv => Stepped j' inv
         | Unassigned n => Unassigned n
         end).
Proof.
  intros Hb Hty. unfold set_button_callback.
  destruct (Z.geb_spec b (num_buttons_ j)); [lia|].
  eexists. split; [reflexivity|]. split; [done|].
  unfold on_event, on_button. rewrite Hty. cbn. split.
  - intros ->. rewrite lookup_insert_eq. by destruct cb.
  - intros Hne. rewrite lookup_insert_ne by done.
    by destruct (button_map_ j !! number e) as [[f|]|].
Qed.

(** X3.  Events carrying the [JS_EVENT_INIT] flag (the synthetic
    initial-state events) match neither case of the switch: a run of the
    polling loop that reads only such events, or nothing, leaves the
    object as it was and runs no callback. *)
Theorem flagged_events_ignored reads j :
  Forall (fun r => forall e, r = Some e ->
                             Z.land (type e) JS_EVENT_INIT <> 0) reads ->
  input_thread_func reads j = Stepped j [].
Proof.
  induction 1 as [|r reads Hr _ IH]; [done|].
  destruct r as [e|]; cbn [input_thread_func]; [|done].
  destruct (flagged_type e (Hr e eq_refl)) as [Hb Ha].
  by rewrite (on_event_other_type e j Hb Ha), IH.
Qed.


Lemma latest_cons slot f r reads before :
  latest slot f (r :: reads) before
  = latest slot f reads (latest slot f [r] before).
Proof. done. Qed.

(** X5.  After a run of the polling loop that reads no button event,
    each field of each entry of the axis table holds the value of the
    last axis event of the run that the switch routes to it, or what it
    held before when there is none; no callback runs.  For an axis below
    the axis count, [get_axis_state] returns exactly these two values. *)
Theorem axis_snapshot_latest reads j :
  Forall (fun r => forall e, r = Some e -> type e <> JS_EVENT_BUTTON) reads ->
  exists j',
    input_thread_func reads j = Stepped j' [] /\
    num_axes_ j' = num_axes_ j /\
    button_map_ j' = button_map_ j /\
    (forall slot f,
       Spec.read f (axis_map_ j' !!! slot)
       = latest slot f reads (Spec.read f (axis_map_ j !!! slot))) /\
    (forall a, a < num_axes_ j ->
       get_axis_state a j'
       = (j', inr {| x := latest a Spec.X reads (x (axis_map_ j !!! a));
                     y := latest a Spec.Y reads (y (axis_map_ j !!! a)) |})).
Proof.
  intros Hreads.
  assert (Hrun : exists j',
    input_thread_func reads j = Stepped j' [] /\
    num_axes_ j' = num_axes_ j /\
    button_map_ j' = button_map_ j /\
    (forall slot f,
       Spec.read f (axis_map_ j' !!! slot)
       = latest slot f reads (Spec.read f (axis_map_ j !!! slot)))).
  { revert j. induction Hreads as [|r reads Hr _ IH]; intros j.
    - by exists j.
    - destruct r as [e|]; cbn [input_thread_func].
      + specialize (Hr e eq_refl). apply Z.eqb_neq in Hr.
        unfold on_event. rewrite Hr.
        destruct (Z.eqb_spec (type e) JS_EVENT_AXIS) as [Hax|Hax].
        * destruct (IH (on_axis e j)) as (j' & -> & Hna & Hbm & Hread).
          destruct (on_axis_fields e j) as (_ & Hna' & _ & Hbm').
          exists j'. split; [done|]. split; [congruence|].
          split; [congruence|]. intros slot f.
          rewrite Hread, on_axis_read, latest_cons. f_equal.
          unfold latest. cbn [foldl].
          destruct (decide (target e = Some (slot, f))) as [Ht|Ht].
          -- by rewrite decide_True.
          -- rewrite decide_False; [done|]. by intros [_ ?].
        * destruct (IH j) as (j' & -> & Hna & Hbm & Hread).
          exists j'. repeat (split; [done|]). intros slot f.
          rewrite Hread, latest_cons. f_equal. unfold latest. cbn [foldl].
          rewrite decide_False; [done|]. by intros [? _].
      + destruct (IH j) as (j' & -> & Hna & Hbm & Hread).
        exists j'. by repeat (split; [done|]). }
  destruct Hrun as (j' & Hstep & Hna & Hbm & Hread).
  exists j'. repeat (split; [done|]).
  intros a Ha. unfold get_axis_state.
  destruct (Z.geb_spec a (num_axes_ j')); [lia|].
  pose proof (Hread a Spec.X) as Hx. pose proof (Hread a Spec.Y) as Hy.
  cbn [Spec.read] in Hx, Hy. by rewrite Hx, Hy.
Qed.


Lemma target_bounds e slot f :
  target e = Some (slot, f) -> 0 <= slot <= number e.
Proof.
  unfold target, Spec.axis_routing.
  repeat case_match; intros [= <- <-] || discriminate; lia.
Qed.

Lemma on_axis_assigned e j slot f :
  target e = Some (slot, f) ->
  is_Some (axis_map_ (on_axis e j) !! slot).
Proof.
  unfold target, Spec.axis_routing, on_axis.
  repeat case_match; intros [= <- <-] || discriminate;
    cbn [axis_map_ with_axis_map];
    rewrite ?store_x_lookup, ?store_y_lookup; eauto.
Qed.

(** X7.  The axis branch stores the value without comparing anything
    with the axis count.  The entry it addresses is never above the raw
    number, so for a raw number below the axis count the stored value is
    returned by [get_axis_state]; when the entry is at or above the axis
    count the value is stored all the same, but [get_axis_state] for
    that entry throws. *)
Theorem axis_store_and_count e j slot f :
  type e = JS_EVENT_AXIS ->
  target e = Some (slot, f) ->
  exists j',
    on_event e j = Stepped j' [] /\
    0 <= slot <= number e /\
    (exists st, axis_map_ j' !! slot = Some st /\ Spec.read f st = value e) /\
    (number e < num_axes_ j ->
       exists st, get_axis_state slot j' = (j', inr st) /\
                  Spec.read f st = value e) /\
    (num_axes_ j <= slot ->
       get_axis_state slot j'
       = (j', inl (runtime_error
                     "Joystick: get_axis_state: axis value out of range"))).
Proof.
  intros Hty Ht. exists (on_axis e j).
  pose proof (target_bounds e slot f Ht) as Hslot.
  pose proof (on_axis_read e j slot f) as Hread.
  rewrite decide_True in Hread by done.
  destruct (on_axis_fields e j) as (_ & Hna & _ & _).
  split; [unfold on_event; by rewrite Hty|]. split; [done|]. split.
  { destruct (on_axis_assigned e j slot f Ht) as [st Hst].
    exists st. split; [done|].
    by rewrite (lookup_total_correct _ _ _ Hst) in Hread. }
  unfold get_axis_state. rewrite Hna. split.
  - intros Hn. destruct (Z.geb_spec slot (num_axes_ j)); [lia|].
    eexists. split; [reflexivity|]. by destruct f.
  - intros Hn. by destruct (Z.geb_spec slot (num_axes_ j)); [|lia].
Qed.

End PollerRuns.

(* ================================================================== *)
(** * Further properties of the control loop                           *)
(* ================================================================== *)

Section DriveCommands.

Import MiniproMain Runs.

Lemma quot10_nonneg a : 0 <= a -> 10 * Z.quot a 10 <= a < 10 * Z.quot a 10 + 10.
Proof.
  intros Ha. rewrite Z.quot_div_nonneg by lia.
  pose proof (Z.div_mod a 10 ltac:(lia)).
  pose proof (Z.mod_pos_bound a 10 ltac:(lia)). lia.
Qed.

Lemma quot10_neg a : Z.quot (- a) 10 = - Z.quot a 10.
Proof. apply Z.quot_opp_l. lia. Qed.

(** X8.  For raw stick readings in the range of [int16_t] the command
    of the loop body is bounded: the throttle lies in [-24767, 24768]
    and the steering in [-2476, 2476]. *)
Theorem command_range ry rx :
  int16 ry -> int16 rx ->
  exists t s,
    command (- ry) (- rx) = drive t s /\
    -24767 <= t <= 24768 /\ -2476 <= s <= 2476.
Proof.
  unfold int16, command, sign, zero_threshold_x, zero_threshold_y.
  intros Hy Hx. eexists _, _. split; [reflexivity|]. split.
  - destruct (Z.ltb_spec (Z.abs (- ry)) 8000), (Z.gtb_spec (- ry) 0); lia.
  - destruct (Z.ltb_spec (Z.abs (- rx)) 8000) as [Hin|Hout]; [lia|].
    destruct (Z.gtb_spec (- rx) 0) as [Hpos|Hneg].
    + pose proof (quot10_nonneg ((Z.abs (- rx) - 8000) * 1) ltac:(lia)). lia.
    + replace ((Z.abs (- rx) - 8000) * -1) with (- (Z.abs (- rx) - 8000))
        by lia.
      rewrite quot10_neg.
      pose proof (quot10_nonneg (Z.abs (- rx) - 8000) ltac:(lia)). lia.
Qed.

(** X9.  The command is odd in the stick: negating both readings
    negates both components of the command. *)
Theorem command_odd throttle steering :
  exists t s,
    command throttle steering = drive t s /\
    command (- throttle) (- steering) = drive (- t) (- s).
Proof.
  unfold command, sign, zero_threshold_x, zero_threshold_y.
  eexists _, _. split; [reflexivity|]. rewrite !Z.abs_opp. f_equal.
  - destruct (Z.ltb_spec (Z.abs throttle) 8000); [done|].
    destruct (Z.gtb_spec (- throttle) 0), (Z.gtb_spec throttle 0); lia.
  - destruct (Z.ltb_spec (Z.abs steering) 8000); [done|].
    rewrite <- quot10_neg. f_equal.
    destruct (Z.gtb_spec (- steering) 0), (Z.gtb_spec steering 0); lia.
Qed.

(** X10.  The neutral band of the command: the throttle is 0 exactly
    when the reading has magnitude at most 8000, and the steering,
    because the division by ten truncates, is 0 exactly when the reading
    has magnitude below 8010. *)
Theorem command_neutral_band throttle steering :
  exists t s,
    command throttle steering = drive t s /\
    (t = 0 <-> Z.abs throttle <= 8000) /\
    (s = 0 <-> Z.abs steering < 8010).
Proof.
  unfold command, sign, zero_threshold_x, zero_threshold_y.
  eexists _, _. split; [reflexivity|]. split.
  - destruct (Z.ltb_spec (Z.abs throttle) 8000), (Z.gtb_spec throttle 0); lia.
  - destruct (Z.ltb_spec (Z.abs steering) 8000) as [Hin|Hout]; [lia|].
    rewrite Z.quot_small_iff by lia.
    destruct (Z.gtb_spec steering 0); lia.
Qed.

End DriveCommands.

Section LoopExits.

Import Joystick MiniproMain Runs.

Context {callback : Type}.

Implicit Types (o : observation callback) (obs : list (observation callback))
  (j : Joystick callback).

Lemma body_is_drive o a : body o = inr a -> is_drive a.
Proof.
  unfold body.
  destruct (get_axis_state Axis_LeftThumbstick (at_throttle o)).2; [done|].
  destruct (get_axis_state Axis_LeftThumbstick (at_steering o)).2; [done|].
  intros [= <-]. unfold command. by eexists _, _.
Qed.

Lemma body_threw o e :
  body o = inl e ->
  e = runtime_error "Joystick: get_axis_state: axis value out of range" /\
  (num_axes_ (at_throttle o) <= 0 \/ num_axes_ (at_steering o) <= 0).
Proof.
  unfold body, get_axis_state, Axis_LeftThumbstick.
  destruct (Z.geb_spec 0 (num_axes_ (at_throttle o))); cbn.
  - intros [= <-]. split; [done | by left].
  - destruct (Z.geb_spec 0 (num_axes_ (at_steering o))); cbn; [|done].
    intros [= <-]. split; [done | by right].
Qed.

Lemma control_loop_drives flag obs :
  Forall is_drive (fst (control_loop flag obs)).
Proof.
  revert flag. induction obs as [|o obs IH]; intros flag; cbn; [done|].
  destruct (foldl _ flag (interrupts o)); cbn; [done|].
  destruct (body o) as [e|a] eqn:Hbody; cbn; [done|].
  specialize (IH false). destruct (control_loop false obs) as [acts fin].
  cbn in *. constructor; [by eapply body_is_drive | done].
Qed.

Lemma control_loop_threw flag obs e :
  snd (control_loop flag obs) = threw e ->
  exists o, o ∈ obs /\ body o = inl e.
Proof.
  revert flag. induction obs as [|o obs IH]; intros flag; cbn; [done|].
  destruct (foldl _ flag (interrupts o)); cbn; [done|].
  destruct (body o) as [e'|a] eqn:Hbody; cbn.
  - intros [= ->]. exists o. split; [apply list_elem_of_here | done].
  - specialize (IH false). destruct (control_loop false obs) as [acts fin].
    cbn in *. intros Hfin. destruct (IH Hfin) as (o' & Hin & Ho').
    exists o'. split; [by apply list_elem_of_further | done].
Qed.

Lemma drives_only acts :
  Forall is_drive acts ->
  (exit_remote_control_mode ∉ acts) /\ (release ∉ acts).
Proof.
  intros Hacts. split; intros Hin;
    apply (proj1 (Forall_forall _ _) Hacts) in Hin as (t & s & Heq);
    discriminate.
Qed.

(** X11.  When the loop is left by an exception, the poller had
    reported no axis to one of the two [get_axis_state] calls; [main]
    then returns -1 and, after the drive commands of the completed
    iterations, only releases the connection: it sends no final
    [drive 0 0] and does not leave remote control mode. *)
Theorem loop_exception_skips_stop j obs e :
  snd (control_loop false obs) = threw e ->
  e = runtime_error "Joystick: get_axis_state: axis value out of range" /\
  (exists o, o ∈ obs /\
     (num_axes_ (at_throttle o) <= 0 \/ num_axes_ (at_steering o) <= 0)) /\
  main true (inr j) obs
    = ([enable_notifications; enter_remote_control_mode]
         ++ fst (control_loop false obs) ++ [release],
       Some (-1)) /\
  drives (fst (main true (inr j) obs)) = drives (fst (control_loop false obs)) /\
  (exit_remote_control_mode ∉ fst (main true (inr j) obs)) /\
  (disable_notifications ∉ fst (main true (inr j) obs)).
Proof.
  intros Hfin.
  destruct (control_loop_threw _ _ _ Hfin) as (o & Hin & Hbody).
  apply body_threw in Hbody as [-> Hax].
  split; [done|]. split; [by exists o|].
  pose proof (control_loop_drives false obs) as Hd.
  assert (Hmain : main true (inr j) obs
    = ([enable_notifications; enter_remote_control_mode]
         ++ fst (control_loop false obs) ++ [release], Some (-1))).
  { unfold main. cbn [negb].
    destruct (control_loop false obs) as [acts fin]. cbn in Hfin.
    by subst fin. }
  rewrite Hmain. cbn [fst]. split; [done|]. split.
  { unfold drives. rewrite !omap_app. cbn. by rewrite app_nil_r. }
  split; intros Hin'; cbn in Hin';
    repeat (apply elem_of_cons in Hin' as [Hin'|Hin']; [discriminate|]);
    apply elem_of_app in Hin' as [Hin'|Hin'];
    try (apply (proj1 (Forall_forall _ _) Hd) in Hin' as (t & s & Heq);
         discriminate);
    apply list_elem_of_singleton in Hin'; discriminate.
Qed.

(** X12.  Once the [MiniPro] object exists, every way [main] returns
    ends with exactly one release of the connection, as the last call
    on the object; while the loop is still running nothing has been
    released.  [main] returns 0 only after the loop was left on the
    flag, and -1 otherwise; if the [MiniPro] constructor throws, nothing
    is called at all. *)
Theorem main_releases_once connected (joystick : exn + Joystick callback) obs :
  (connected = false -> main connected joystick obs = ([], Some (-1))) /\
  (connected = true ->
   match snd (main connected joystick obs) with
   | Some code =>
     (exists t, fst (main connected joystick obs) = t ++ [release] /\
                release ∉ t) /\
     (code = 0 \/ code = -1) /\
     (code = 0 <->
        (exists j, joystick = inr j) /\
        snd (control_loop false obs) = flag_seen)
   | None => release ∉ fst (main connected joystick obs)
   end).
Proof.
  split; [by intros ->|]. intros ->. unfold main. cbn [negb].
  destruct joystick as [e|j]; cbn [fst snd].
  { split; [|split; [by right|]].
    - exists [enable_notifications; enter_remote_control_mode].
      split; [done|]. intros Hin.
      repeat (apply elem_of_cons in Hin as [Hin|Hin]; [discriminate|]).
      by apply elem_of_nil in Hin.
    - split; [done|]. by intros [[j' [=]] _]. }
  pose proof (control_loop_drives false obs) as Hd.
  destruct (control_loop false obs) as [acts fin]. cbn [fst snd] in *.
  destruct (drives_only acts Hd) as [_ Hrel].
  assert (Hfront : forall tail, release ∉ tail ->
            release ∉ [enable_notifications; enter_remote_control_mode]
                        ++ acts ++ tail).
  { intros tail Htail Hin. cbn in Hin.
    repeat (apply elem_of_cons in Hin as [Hin|Hin]; [discriminate|]).
    apply elem_of_app in Hin as [Hin|Hin]; [by apply Hrel | by apply Htail]. }
  destruct fin as [|e|]; cbn [fst snd].
  - split; [|split; [by left|]].
    + exists ([enable_notifications; enter_remote_control_mode] ++ acts ++
              [drive 0 0; exit_remote_control_mode; disable_notifications]).
      split; [by rewrite <- !app_assoc|].
      apply Hfront. intros Hin.
      repeat (apply elem_of_cons in Hin as [Hin|Hin]; [discriminate|]).
      by apply elem_of_nil in Hin.
    + split; [|done]. intros _. split; [by exists j | done].
  - split; [|split; [by right|]].
    + exists ([enable_notifications; enter_remote_control_mode] ++ acts).
      split; [by rewrite <- !app_assoc|].
      rewrite <- (app_nil_r acts). apply Hfront. by apply not_elem_of_nil.
    + split; [done|]. by intros [_ [=]].
  - rewrite <- (app_nil_r acts). apply Hfront. by apply not_elem_of_nil.
Qed.

End LoopExits.

(* ================================================================== *)
(** * Further properties of the GATT operation facade                  *)
(* ================================================================== *)

Section Writes.

Import LEClient Facade.

Implicit Types (c : LEClient).

Lemma deliver_write_long_requests (cs : list long_completion) :
  requests (fst (deliver write_long_cb cs Pending)) = [].
Proof.
  induction cs as [|lc cs IH]; [done|].
  destruct (Spec.final lc) eqn:Hf.
  - by rewrite deliver_write_long_final.
  - by rewrite deliver_write_long_unverified.
Qed.

Lemma requests_app out1 out2 :
  requests (out1 ++ out2) = requests out1 ++ requests out2.
Proof. unfold requests. apply omap_app. Qed.

Lemma write_long_value_run reliable_writes handle offset value
    (r : reply long_completion) c :
  write_long_value reliable_writes handle offset value r c
  = (Call (bt_gatt_client_write_long_value reliable_writes handle offset value)
       :: (if ret r =? 0
           then [printf "Failed to initiate bt_gatt_client_write_long_value\n" []]
           else [])
       ++ fst (deliver write_long_cb (completions r) Pending)
       ++ match snd (deliver write_long_cb (completions r) Pending) with
          | Ready rc =>
            if rc =? 0 then []
            else [printf "bt_gatt_client_write_long_value failed: %s (0x%02x)\n"
                         [to_string rc; int_arg rc]]
          | Pending => []
          end,
     match snd (deliver write_long_cb (completions r) Pending) with
     | Ready _ => Returns tt c
     | Pending => Blocks c
     end).
Proof.
  unfold write_long_value, bind, request, emit, when, say, emit, await,
    future_get, pure.
  destruct (deliver write_long_cb (completions r) Pending) as [out p].
  cbn [fst snd].
  destruct (ret r =? 0); destruct p as [|rc]; cbn;
    rewrite ?app_nil_r; try done; by destruct (rc =? 0); cbn;
    rewrite ?app_nil_r.
Qed.

(** X13.  [write_long_value] hands exactly one request to the
    collaborator and leaves the client object as it was.  It returns
    exactly when one of the completions delivered is a success or
    carries an error code; when every completion delivered (or none at
    all) is "reliable write not verified", it never returns. *)
Theorem write_long_value_returns reliable_writes handle offset value
    (r : reply long_completion) c :
  requests (fst (write_long_value reliable_writes handle offset value r c))
    = [bt_gatt_client_write_long_value reliable_writes handle offset value] /\
  (snd (write_long_value reliable_writes handle offset value r c)
     = Returns tt c
   <-> exists lc, lc ∈ completions r /\ Spec.final lc = true) /\
  (snd (write_long_value reliable_writes handle offset value r c) = Blocks c
   <-> forall lc, lc ∈ completions r -> Spec.final lc = false).
Proof.
  rewrite write_long_value_run. cbn [fst snd].
  pose proof (deliver_write_long_fulfilled (completions r)) as Hful.
  split.
  { cbn. rewrite !requests_app, deliver_write_long_requests.
    destruct (ret r =? 0);
      destruct (snd (deliver write_long_cb (completions r) Pending)) as [|rc];
      try done; by destruct (rc =? 0). }
  destruct (snd (deliver write_long_cb (completions r) Pending)) as [|rc];
    cbn [fulfilled] in Hful.
  - split; split; try done.
    + intros Hex. by apply Hful in Hex.
    + intros _ lc Hin. destruct (Spec.final lc) eqn:Hf; [|done].
      assert (false = true) by (apply Hful; eauto). done.
  - split; split; try done.
    + intros _. by apply Hful.
    + intros Hall. destruct (proj1 Hful eq_refl) as (lc & Hin & Hf).
      by rewrite (Hall lc Hin) in Hf.
Qed.

Lemma write_value_without_response_run handle value signed_write
    (r : reply write_completion) c :
  write_value handle value true signed_write r c
  = (Req (bt_gatt_client_write_without_response handle signed_write value)
       :: (if ret r =? 0
           then [Eff (printf
                   "Failed to initiate write-without-response procedure\n" [])]
           else []),
     Returns tt c).
Proof.
  unfold write_value, mbind, op_bind, ask, unless_ok, tell, lift, say, emit,
    mret, op_ret.
  by destruct (ret r =? 0).
Qed.

Lemma write_value_run handle value signed_write
    (r : reply write_completion) c :
  write_value handle value false signed_write r c
  = (Req (bt_gatt_client_write_value handle value)
       :: (if ret r =? 0
           then [Eff (printf "Failed to initiate write procedure\n" [])]
           else [])
       ++ match completions r with
          | wc :: _ =>
            if (if w_success wc then 0 else w_att_ecode wc) =? 0 then []
            else [Eff (printf "write_value failed\n" [])]
          | [] => []
          end,
     match completions r with
     | _ :: _ => Returns tt c
     | [] => Blocks c
     end).
Proof.
  unfold write_value.
  destruct (completions r) as [|wc cs] eqn:Hcs.
  - unfold mbind, op_bind, ask, unless_ok, tell, lift, say, emit, mret,
      op_ret, await, future_get. cbn.
    by destruct (ret r =? 0).
  - pose proof (await_write_cb_cons wc cs) as Hawait.
    unfold mbind, op_bind, ask, unless_ok, tell, lift, say, emit, mret,
      op_ret, future_get.
    destruct (ret r =? 0); cbn; rewrite Hawait; cbn;
      by destruct ((if w_success wc then 0 else w_att_ecode wc) =? 0).
Qed.

(** X14.  [write_value] hands exactly one request to the collaborator
    and leaves the client object as it was.  Without response it always
    returns at once, whatever the dispatch returned.  With response it
    returns exactly when a completion is delivered and otherwise waits
    for ever, also after a failed dispatch; on return it prints
    "write_value failed" exactly when the first completion is a failure
    with a non-zero code. *)
Theorem write_value_waits handle value without_response signed_write
    (r : reply write_completion) c :
  asked (fst (write_value handle value without_response signed_write r c))
    = [if without_response
       then bt_gatt_client_write_without_response handle signed_write value
       else bt_gatt_client_write_value handle value] /\
  (without_response = true ->
   snd (write_value handle value without_response signed_write r c)
   = Returns tt c) /\
  (without_response = false ->
   (snd (write_value handle value without_response signed_write r c)
      = Returns tt c <-> completions r <> []) /\
   (snd (write_value handle value without_response signed_write r c)
      = Blocks c <-> completions r = []) /\
   (forall wc cs, completions r = wc :: cs ->
      (("write_value failed\n", []) ∈
         told (fst (write_value handle value without_response signed_write r c))
       <-> w_success wc = false /\ w_att_ecode wc <> 0))).
Proof.
  destruct without_response.
  - rewrite write_value_without_response_run. cbn [fst snd].
    split; [by destruct (ret r =? 0)|]. by split.
  - rewrite write_value_run. cbn [fst snd]. split.
    { destruct (ret r =? 0); destruct (completions r) as [|wc cs]; try done;
        by destruct ((if w_success wc then 0 else w_att_ecode wc) =? 0). }
    split; [done|]. intros _.
    destruct (completions r) as [|wc cs]; [by repeat split|].
    split; [by split|]. split; [by split|].
    intros wc' cs' [= <- <-].
    destruct (w_success wc).
    + cbn. destruct (ret r =? 0); cbn; split; try (by intros [? ?]);
        intros Hin;
        repeat (apply elem_of_cons in Hin as [Hin|Hin]; [discriminate|]);
        by apply elem_of_nil in Hin.
    + destruct (Z.eqb_spec (w_att_ecode wc) 0) as [Hz|Hz].
      * cbn. destruct (ret r =? 0); cbn; split; try (by intros [? ?]);
          intros Hin;
          repeat (apply elem_of_cons in Hin as [Hin|Hin]; [discriminate|]);
          by apply elem_of_nil in Hin.
      * split; [done|]. intros _.
        destruct (ret r =? 0); cbn;
          [apply list_elem_of_further|]; apply list_elem_of_here.
Qed.

End Writes.

Section Sessions.

Import LEClient Facade.

Implicit Types (c : LEClient).

Lemma write_prepare_run_current handle offset value r c :
  write_prepare (reliable_session_id_ c) handle offset value r c
  = (Call (bt_gatt_client_prepare_write (reliable_session_id_ c)
             handle offset value)
       :: (if r =? 0 then [printf "Failed to proceed prepare write\n" []]
           else [])
       ++ [printf
             "Prepare write success.\nSession id: %d to be used on next write\n"
             [int_arg r]],
     Returns tt {| reliable_session_id_ := r |}).
Proof.
  unfold write_prepare, bind, get_session, request, set_session, when, say,
    emit, pure.
  rewrite Z.eqb_refl. cbn. by destruct (r =? 0).
Qed.

Lemma write_prepare_run_other id handle offset value r c :
  id <> reliable_session_id_ c ->
  write_prepare id handle offset value r c
  = ([printf "Session id != Ongoing session id (%u!=%u)\n"
             [int_arg id; int_arg (reliable_session_id_ c)]],
     Returns tt c).
Proof.
  intros Hid. unfold write_prepare, bind, get_session, say, emit.
  destruct (Z.eqb_spec (reliable_session_id_ c) id); [congruence | done].
Qed.

Lemma write_execute_returned session_id execute
    (rep : reply write_completion) c out c' :
  write_execute session_id execute rep c = (out, Returns tt c') ->
  reliable_session_id_ c' = 0 /\
  requests out = [if execute then bt_gatt_client_write_execute session_id
                  else bt_gatt_client_cancel session_id].
Proof.
  destruct execute.
  - destruct (completions rep) as [|wc cs] eqn:Hcs.
    + unfold write_execute, bind, request, emit, when, say, emit, pure,
        await, future_get. rewrite Hcs. cbn.
      by destruct (ret rep =? 0).
    + pose proof (await_write_cb_cons wc cs) as Hawait.
      unfold write_execute, bind, request, emit, when, say, emit, pure,
        future_get, set_session.
      rewrite Hcs.
      destruct (ret rep =? 0); cbn; rewrite Hawait; cbn;
        destruct ((if w_success wc then 0 else w_att_ecode wc) =? 0); cbn;
        by intros [= <- <-].
  - cbn. by intros [= <- <-].
Qed.

(** X15.  A session id is used up by [write_execute].  After a prepare
    with the open session's id has stored the id the collaborator
    returned, any [write_execute] that returns (it forwards whatever id
    it is given, without comparing it with the stored one) leaves no
    session open: a further prepare with the id just used is rejected
    without a request, and only a prepare with id 0 reaches the
    collaborator. *)
Theorem session_single_use handle offset value r session_id execute
    (rep : reply write_completion) handle' offset' value' r' c out c2 :
  r <> 0 ->
  write_execute session_id execute rep
    {| reliable_session_id_ := r |} = (out, Returns tt c2) ->
  snd (write_prepare (reliable_session_id_ c) handle offset value r c)
    = Returns tt {| reliable_session_id_ := r |} /\
  requests out = [if execute then bt_gatt_client_write_execute session_id
                  else bt_gatt_client_cancel session_id] /\
  requests (fst (write_prepare r handle' offset' value' r' c2)) = [] /\
  snd (write_prepare r handle' offset' value' r' c2) = Returns tt c2 /\
  requests (fst (write_prepare 0 handle' offset' value' r' c2))
    = [bt_gatt_client_prepare_write 0 handle' offset' value'].
Proof.
  intros Hr Hexec.
  apply write_execute_returned in Hexec as [Hzero Hreq].
  split; [by rewrite write_prepare_run_current|]. split; [done|].
  rewrite (write_prepare_run_other r) by (rewrite Hzero; done).
  split; [done|]. split; [done|].
  rewrite <- Hzero at 1. rewrite write_prepare_run_current. cbn [fst].
  rewrite Hzero. by destruct (r' =? 0).
Qed.

(** X16.  When the collaborator refuses a prepare made with the id of
    an open session (it returns 0), [write_prepare] prints the failure
    line followed by the "Prepare write success" line and stores 0: the
    session is closed on the client side, and a further prepare with its
    id is rejected without a request. *)
Theorem refused_prepare_closes_session handle offset value
    handle' offset' value' r' c :
  reliable_session_id_ c <> 0 ->
  exists out c',
    write_prepare (reliable_session_id_ c) handle offset value 0 c
      = (out, Returns tt c') /\
    printed out
      = [("Failed to proceed prepare write\n", []);
         ("Prepare write success.\nSession id: %d to be used on next write\n",
          [int_arg 0])] /\
    reliable_session_id_ c' = 0 /\
    write_prepare (reliable_session_id_ c) handle' offset' value' r' c'
      = ([printf "Session id != Ongoing session id (%u!=%u)\n"
                 [int_arg (reliable_session_id_ c); int_arg 0]],
         Returns tt c').
Proof.
  intros Hopen. eexists _, _.
  split; [apply write_prepare_run_current|]. split; [done|].
  split; [done|]. by rewrite write_prepare_run_other.
Qed.

(** X17.  [set_security] with a level below 1 or above 3 prints
    "Invalid level" and makes no request; with a level from 1 to 3 it
    makes exactly one request, carrying that level, and prints a line
    only when the collaborator refuses.  It always returns and leaves
    the client object as it was. *)
Theorem set_security_range level r c :
  snd (set_security level r c) = Returns tt c /\
  (level < 1 \/ 3 < level ->
   asked (fst (set_security level r c)) = [] /\
   told (fst (set_security level r c))
     = [("Invalid level: %d\n", [int_arg level])]) /\
  (1 <= level <= 3 ->
   asked (fst (set_security level r c)) = [bt_gatt_client_set_security level] /\
   told (fst (set_security level r c))
     = if r =? 0 then [("Could not set security level\n", [])] else []).
Proof.
  unfold set_security, mbind, op_bind, ask, unless_ok, tell, lift, say, emit,
    mret, op_ret.
  destruct (Z.ltb_spec level 1), (Z.gtb_spec level 3); cbn [orb];
    destruct (r =? 0); cbn; (split; [done|]); split; intros; try lia; done.
Qed.

Lemma hex_bytes_lines (bytes : list Z) rest :
  hex_bytes (map (fun b => printf "%02x " [int_arg b]) bytes ++ rest)
  = bytes ++ hex_bytes rest.
Proof. induction bytes as [|b bytes IH]; [done|]. cbn. by rewrite <- IH. Qed.

(** X18.  The three handlers that print a value print every byte of it,
    in order, each as the argument of one ["%02x "]: the bytes can be
    read back from the output of [read_cb] and [read_multiple_cb] after
    a success and of [notify_cb]; after a failure no byte is printed. *)
Theorem handlers_print_value (comp : read_completion) value_handle value :
  hex_bytes (read_cb comp) = (if r_success comp then r_value comp else []) /\
  hex_bytes (read_multiple_cb comp)
    = (if r_success comp then r_value comp else []) /\
  hex_bytes (notify_cb value_handle value) = value.
Proof.
  unfold read_cb, read_multiple_cb, notify_cb.
  split; [|split].
  - destruct (r_success comp); [|done]. cbn [negb].
    destruct (Z.eqb_spec (Z.of_nat (length (r_value comp))) 0) as [Hz|Hz].
    + by destruct (r_value comp).
    + change (hex_bytes (?a :: ?b :: ?l)) with (hex_bytes l).
      by rewrite hex_bytes_lines, app_nil_r.
  - destruct (r_success comp); [|done]. cbn [negb].
    change (hex_bytes (?a :: ?l)) with (hex_bytes l).
    by rewrite hex_bytes_lines, app_nil_r.
  - destruct (Z.eqb_spec (Z.of_nat (length value)) 0) as [Hz|Hz].
    + by destruct value.
    + change (hex_bytes (?a :: ?b :: ?l)) with (hex_bytes l).
      by rewrite hex_bytes_lines, app_nil_r.
Qed.

Lemma sign_counters_from n cnt :
  0 <= cnt ->
  sign_counters n (cnt mod 2 ^ 32)
  = ((fun k => (cnt + k) mod 2 ^ 32) <$> seqZ 0 (Z.of_nat n),
     (cnt + Z.of_nat n) mod 2 ^ 32).
Proof.
  revert cnt. induction n as [|n IH]; intros cnt Hcnt.
  - cbn. by rewrite Z.add_0_r.
  - cbn [sign_counters local_counter].
    rewrite Zplus_mod_idemp_l.
    rewrite (IH (cnt + 1)) by lia.
    rewrite Nat2Z.inj_succ.
    rewrite (seqZ_cons 0 (Z.succ (Z.of_nat n))) by lia.
    rewrite Z.pred_succ, fmap_cons, Z.add_0_r. f_equal.
    + f_equal. change (Z.succ 0) with (1 + 0).
      rewrite <- (fmap_add_seqZ 1 0), <- list_fmap_compose.
      apply list_fmap_ext. intros i k _. cbn. f_equal. lia.
    + f_equal. lia.
Qed.

(** X19.  The signing counters handed out by successive calls of
    [local_counter] start at 0 and count up by one modulo 2^32: the
    k-th call (from 0) stores k mod 2^32, so the first 2^32 calls store
    0, 1, 2, ... without repetition, and every call returns [true]. *)
Theorem local_counter_sequence n :
  sign_counters n 0
  = ((fun k => k mod 2 ^ 32) <$> seqZ 0 (Z.of_nat n), Z.of_nat n mod 2 ^ 32) /\
  (Z.of_nat n <= 2 ^ 32 ->
   fst (sign_counters n 0) = seqZ 0 (Z.of_nat n) /\
   NoDup (fst (sign_counters n 0))) /\
  (forall cnt, fst (fst (local_counter cnt)) = true).
Proof.
  assert (Hseq : sign_counters n 0
    = ((fun k => k mod 2 ^ 32) <$> seqZ 0 (Z.of_nat n),
       Z.of_nat n mod 2 ^ 32)).
  { change 0 with (0 mod 2 ^ 32) at 1.
    by rewrite sign_counters_from by lia. }
  split; [done|]. split; [|done].
  intros Hn. rewrite Hseq. cbn [fst].
  assert (Hid : (fun k => k mod 2 ^ 32) <$> seqZ 0 (Z.of_nat n)
                = seqZ 0 (Z.of_nat n)).
  { rewrite <- (list_fmap_id (seqZ 0 (Z.of_nat n))) at 2.
    apply list_fmap_ext. intros i k Hk.
    apply list_elem_of_lookup_2, elem_of_seqZ in Hk.
    cbn. apply Z.mod_small. lia. }
  rewrite Hid. split; [done|]. apply NoDup_seqZ.
Qed.

End Sessions.

Section Construction.

Import Joystick Connect.


Lemma ready_after_cons success att_ecode reports ready_ :
  ready_after ((success, att_ecode) :: reports) ready_
  = ready_after reports (if success then true else ready_).
Proof. unfold ready_after. cbn. by destruct success. Qed.

(** X21.  [ready_] is only ever set: after any sequence of discovery
    reports it is true exactly when it was true before or one of the
    reports was a success, so a failure reported after a success does
    not clear it.  A failed report prints one line and notifies nobody;
    a successful one prints nothing and notifies the waiters. *)
Theorem ready_flag_monotone (reports : list (bool * Z)) ready_ :
  ready_after reports ready_ = ready_ || existsb fst reports /\
  (forall att_ecode r,
     snd (ready_cb false att_ecode r) = false /\
     length (fst (fst (ready_cb false att_ecode r))) = 1%nat /\
     ready_cb true att_ecode r = ([], true, true)).
Proof.
  split; [|done].
  revert ready_. induction reports as [|[success att_ecode] reports IH];
    intros ready_.
  - cbn. by rewrite orb_false_r.
  - rewrite ready_after_cons, IH. cbn. by destruct success, ready_.
Qed.

End Construction.

(* ================================================================== *)
(** * The further statements at concrete inputs                        *)
(* ================================================================== *)

Section FurtherInstances.

Import Joystick MiniproMain LEClient Runs.


Lemma registered_callback_invoked_at_4 :
  4 < num_buttons_ Sample.pad /\
  type (Sample.button_event 4 1) = JS_EVENT_BUTTON /\
  exists j',
    set_button_callback 4 (Some tt) Sample.pad = (j', inr tt) /\
    on_event (Sample.button_event 4 1) j' = Stepped j' [(tt, true)].
Proof.
  assert (Hb : 4 < num_buttons_ Sample.pad) by (cbn; lia).
  assert (Ht : type (Sample.button_event 4 1) = JS_EVENT_BUTTON) by reflexivity.
  split; [exact Hb|]. split; [exact Ht|].
  destruct (registered_callback_invoked 4 (Some tt) Sample.pad
              (Sample.button_event 4 1) Hb Ht) as (j' & Hset & _ & Hsame & _).
  exists j'. split; [exact Hset | exact (Hsame eq_refl)].
Defined.

Lemma flagged_events_ignored_at_open :
  Forall (fun r => forall e, r = Some e ->
                             Z.land (type e) JS_EVENT_INIT <> 0)
         Cases.initial_events /\
  input_thread_func Cases.initial_events Sample.pad = Stepped Sample.pad [].
Proof.
  assert (H : Forall (fun r => forall e, r = Some e ->
                                Z.land (type e) JS_EVENT_INIT <> 0)
                     Cases.initial_events).
  { unfold Cases.initial_events.
    repeat (apply List.Forall_cons;
            [intros e Heq;
             first [discriminate Heq
                   | injection Heq as <-; vm_compute; discriminate] |]).
    apply List.Forall_nil. }
  split; [exact H|].
  exact (flagged_events_ignored Cases.initial_events Sample.pad H).
Defined.

Lemma axis_snapshot_latest_at_moves :
  Forall (fun r => forall e, r = Some e -> type e <> JS_EVENT_BUTTON)
         Cases.moves /\
  exists j',
    input_thread_func Cases.moves Sample.pad = Stepped j' [] /\
    get_axis_state 0 j' = (j', inr {| x := 300; y := -7 |}).
Proof.
  assert (H : Forall (fun r => forall e, r = Some e ->
                                type e <> JS_EVENT_BUTTON) Cases.moves).
  { unfold Cases.moves.
    repeat (apply List.Forall_cons;
            [intros e Heq;
             first [discriminate Heq | injection Heq as <-; discriminate] |]).
    apply List.Forall_nil. }
  split; [exact H|].
  destruct (axis_snapshot_latest Cases.moves Sample.pad H)
    as (j' & Hrun & _ & _ & _ & Hget).
  exists j'. split; [exact Hrun|].
  apply (Hget 0). cbn. lia.
Defined.


Lemma axis_store_and_count_at_bare :
  type (Sample.axis_event 6 9) = JS_EVENT_AXIS /\
  target (Sample.axis_event 6 9) = Some (3, Spec.X) /\
  exists j',
    on_event (Sample.axis_event 6 9) Cases.bare = Stepped j' [] /\
    (exists st, axis_map_ j' !! 3 = Some st /\ x st = 9) /\
    get_axis_state 3 j'
    = (j', inl (runtime_error
                  "Joystick: get_axis_state: axis value out of range")).
Proof.
  assert (Ht : type (Sample.axis_event 6 9) = JS_EVENT_AXIS) by reflexivity.
  assert (Hr : target (Sample.axis_event 6 9) = Some (3, Spec.X))
    by reflexivity.
  split; [exact Ht|]. split; [exact Hr|].
  destruct (axis_store_and_count (Sample.axis_event 6 9) Cases.bare 3 Spec.X
              Ht Hr) as (j' & Hev & _ & Hst & _ & Hthrow).
  exists j'. split; [exact Hev|]. split; [exact Hst|].
  apply Hthrow. cbn. lia.
Defined.

Lemma command_range_at_extremes :
  int16 (-32768) /\ int16 32767 /\
  exists t s,
    command (- -32768) (- 32767) = drive t s /\
    -24767 <= t <= 24768 /\ -2476 <= s <= 2476.
Proof.
  assert (Hy : int16 (-32768)) by (unfold int16; lia).
  assert (Hx : int16 32767) by (unfold int16; lia).
  split; [exact Hy|]. split; [exact Hx|].
  exact (command_range (-32768) 32767 Hy Hx).
Defined.

Lemma loop_exception_skips_stop_at_bare :
  snd (control_loop false Cases.broken_run)
    = threw (runtime_error "Joystick: get_axis_state: axis value out of range") /\
  main true (inr Sample.pad) Cases.broken_run
    = ([enable_notifications; enter_remote_control_mode; drive 0 (-1200);
        release], Some (-1)).
Proof.
  assert (H : snd (control_loop false Cases.broken_run)
              = threw (runtime_error
                  "Joystick: get_axis_state: axis value out of range"))
    by reflexivity.
  split; [exact H|].
  destruct (loop_exception_skips_stop Sample.pad Cases.broken_run _ H)
    as (_ & _ & Hmain & _).
  rewrite Hmain. reflexivity.
Defined.

Lemma session_single_use_at_9 :
  9 <> 0 /\
  write_execute 5 false Sample.refused {| reliable_session_id_ := 9 |}
    = ([Call (bt_gatt_client_cancel 5)],
       Returns tt {| reliable_session_id_ := 0 |}) /\
  requests (fst (write_prepare 9 18 0 [1] 11 {| reliable_session_id_ := 0 |}))
    = [] /\
  requests (fst (write_prepare 0 18 0 [1] 11 {| reliable_session_id_ := 0 |}))
    = [bt_gatt_client_prepare_write 0 18 0 [1]].
Proof.
  assert (Hr : 9 <> 0) by lia.
  assert (He : write_execute 5 false Sample.refused
                 {| reliable_session_id_ := 9 |}
               = ([Call (bt_gatt_client_cancel 5)],
                  Returns tt {| reliable_session_id_ := 0 |}))
    by reflexivity.
  split; [exact Hr|]. split; [exact He|].
  destruct (session_single_use 18 0 [1] 9 5 false Sample.refused 18 0 [1] 11
              Sample.client _ _ Hr He) as (_ & _ & Hstale & _ & Hfresh).
  split; [exact Hstale | exact Hfresh].
Defined.

Lemma refused_prepare_closes_session_at_7 :
  reliable_session_id_ Sample.client <> 0 /\
  exists out c',
    write_prepare 7 18 0 [1] 0 Sample.client = (out, Returns tt c') /\
    reliable_session_id_ c' = 0 /\
    requests (fst (write_prepare 7 18 2 [3] 11 c')) = [].
Proof.
  assert (H : reliable_session_id_ Sample.client <> 0) by (cbn; lia).
  split; [exact H|].
  destruct (refused_prepare_closes_session 18 0 [1] 18 2 [3] 11 Sample.client H)
    as (out & c' & Hrun & _ & Hzero & Hnext).
  exists out, c'. split; [exact Hrun|]. split; [exact Hzero|].
  exact (f_equal (fun p => requests (fst p)) Hnext).
Defined.

End FurtherInstances.
